(** * Provider plugin protocol of pkg/compose/plugins.go

    A shallow embedding of [runPlugin], [executePlugin],
    [setupPluginCommand] and [checkPluginEnabledInDD], and the properties
    of the message protocol, of the decode loop and of the propagation of
    the returned variables into the project.

    Go strings are byte sequences and are modelled by [string]; Go maps are
    modelled by [gmap] (a nil map is made explicit where the code writes to
    the map, since such a write panics); a Go [error] is modelled by the
    text its [Error()] method returns, and a nil error by [None].

    The child process and the collaborators outside the file (plugin
    manager, Desktop integration, [docker model status]) are inputs,
    gathered in a [World]. What the code does to them and to the progress
    sink is recorded as a list of operations, in program order; the
    goroutine started by [eg.Go(cmd.Wait)] appears through its start
    ([OpGoWait]), its join ([OpEgWait]) and its result ([Wait_err]). The
    standard output of the child is a finite list of decoding results,
    followed by [io.EOF]. *)

From Stdlib Require Import Ascii.
From stdpp Require Import gmap strings list fin_maps.

Local Open Scope string_scope.
Local Open Scope list_scope.
Local Open Scope stdpp_scope.

(** ** Go's [strings.Cut] *)

Module strings.

(** [HasPrefix s prefix]: [prefix] is an initial segment of [s]. *)
Fixpoint HasPrefix (s prefix : string) : bool :=
  match prefix, s with
  | EmptyString, _ => true
  | String _ _, EmptyString => false
  | String a prefix', String b s' =>
      if decide (a = b) then HasPrefix s' prefix' else false
  end.

(** [drop n s] is the slice [s[n:]]. *)
Fixpoint drop (n : nat) (s : string) : string :=
  match n, s with
  | O, _ => s
  | S _, EmptyString => EmptyString
  | S n', String _ s' => drop n' s'
  end.

(** [Cut s sep] slices [s] around the first instance of [sep]: it returns
    the text before and after [sep] and whether [sep] was found; when it
    is not found the result is [(s, "", false)]. *)
Fixpoint Cut (s sep : string) : string * string * bool :=
  if HasPrefix s sep then (EmptyString, drop (String.length sep) s, true)
  else
    match s with
    | EmptyString => (EmptyString, EmptyString, false)
    | String c s' =>
        let '(before, after, found) := Cut s' sep in
        (String c before, after, found)
    end.

(** [Contains s c]: the byte [c] occurs in [s]. *)
Fixpoint Contains (s : string) (c : ascii) : Prop :=
  match s with
  | EmptyString => False
  | String b s' => b = c ∨ Contains s' c
  end.

End strings.

(** ** Data model *)

(** A Go [error], by its text. *)
Definition error : Type := string.

Record JsonMessage : Type := mkJsonMessage {
  Type_ : string;     (* json:"type" *)
  Message : string    (* json:"message" *)
}.

Definition ErrorType : string := "error".
Definition InfoType : string := "info".
Definition SetEnvType : string := "setenv".

(** [types.Mapping] is [map[string]string]; [types.MappingWithEquals] is
    [map[string]*string]. *)
Abbreviation Mapping := (gmap string string).
Abbreviation MappingWithEquals := (gmap string (option string)).

Record ServiceDependency : Type := mkServiceDependency {
  Condition : string;
  Restart : bool;
  Required : bool
}.

Record ServiceProviderConfig : Type := mkServiceProviderConfig {
  ProviderType : string;
  Options : gmap string string
}.

(** The fields of [types.ServiceConfig] the code reads or writes.
    [Provider] is a pointer and [Environment] a map that may be nil. Each
    service has an environment map of its own: a write through one service
    is seen by no other. *)
Record ServiceConfig : Type := mkServiceConfig {
  Name : string;
  Provider : option ServiceProviderConfig;
  DependsOn : gmap string ServiceDependency;
  Environment : option MappingWithEquals
}.

Record Project : Type := mkProject {
  ProjectName : string;
  Services : gmap string ServiceConfig
}.

Record Plugin : Type := mkPlugin {
  PluginName : string;
  PluginPath : string
}.

(** The part of [exec.Cmd] built by [setupPluginCommand] that identifies
    the child process; its environment and its cancel function are left
    out. *)
Record Cmd : Type := mkCmd {
  Path : string;
  Args : list string
}.

(** ** The progress sink *)

(** The events of package [progress] the code constructs, by constructor. *)
Inductive Event : Type :=
| CreatingEvent (id : string)
| CreatedEvent (id : string)
| RemovingEvent (id : string)
| RemovedEvent (id : string)
| ErrorMessageEvent (id msg : string).

(** ** The child process and the other collaborators *)

(** What one call of [decoder.Decode] yields before end of stream. *)
Inductive Decoded : Type :=
| DecMsg (msg : JsonMessage)
| DecErr (err : error).

(** A decoded message [{"type": type, "message": message}]. *)
Definition msg (type message : string) : Decoded :=
  DecMsg {| Type_ := type; Message := message |}.

(** The behaviour of a launched child: the outcome of [cmd.StdoutPipe()],
    of [cmd.Start()], the results of the successive [Decode] calls on its
    standard output (after the last one [Decode] returns [io.EOF]), and the
    outcome of [cmd.Wait()]. *)
Record Process : Type := mkProcess {
  StdoutPipe_err : option error;
  Start_err : option error;
  Stdout : list Decoded;
  Wait_err : option error
}.

(** The error of [cmd.CombinedOutput()]: [ExitCode] is set when the error
    is an [*exec.ExitError]. *)
Record ExecError : Type := mkExecError {
  ExitCode : option Z;
  ExecText : string
}.

Record World : Type := mkWorld {
  GetPlugin : string → Plugin + error;      (* manager.GetPlugin *)
  isDesktopIntegrationActive : bool;
  modelStatus : option ExecError;           (* docker model status *)
  spawn : Cmd → Process
}.

(** ** Observable operations *)

Inductive Op : Type :=
| OpStdoutPipe                 (* cmd.StdoutPipe() *)
| OpStart                      (* cmd.Start() *)
| OpGoWait                     (* eg.Go(cmd.Wait) *)
| OpDecode                     (* decoder.Decode(&msg) *)
| OpEvent (e : Event)          (* pw.Event(e) *)
| OpEgWait                     (* eg.Wait() *)
| OpStdoutClose.               (* deferred stdout.Close() *)

Global Instance Event_eq_dec : EqDecision Event.
Proof. solve_decision. Defined.

Global Instance Op_eq_dec : EqDecision Op.
Proof. solve_decision. Defined.

(** A computation returns a value and the operations it performed, in
    order. *)
Definition M (A : Type) : Type := A * list Op.

Definition ret {A} (a : A) : M A := (a, []).

Definition bind {A B} (f : A → M B) (m : M A) : M B :=
  let '(b, t) := f m.1 in (b, m.2 ++ t).

Global Instance M_ret : MRet M := @ret.
Global Instance M_bind : MBind M := @bind.

Definition emit (o : Op) : M unit := (tt, [o]).

(** [defer d body]: [d] runs when [body] returns, whatever it returns. *)
Definition defer {A} (d : M unit) (body : M A) : M A :=
  r ← body; d;; mret r.

(** ** The decode loop of executePlugin *)

(** How the [for] loop is left: by [break] at end of stream, or by a
    [return] inside the loop. *)
Inductive LoopExit : Type :=
| Break (variables : Mapping)
| Return (r : option Mapping * option error).

Fixpoint decode_loop (name : string) (stdout : list Decoded)
    (variables : Mapping) : M LoopExit :=
  (emit OpDecode ;;
   match stdout with
   | [] => ret (Break variables)
   | DecErr err :: _ => ret (Return (None, Some err))
   | DecMsg msg :: rest =>
       if decide (Type_ msg = ErrorType) then
         emit (OpEvent (ErrorMessageEvent name "error")) ;;
         ret (Return (None, Some (Message msg)))
       else if decide (Type_ msg = InfoType) then
         emit (OpEvent (ErrorMessageEvent name (Message msg))) ;;
         decode_loop name rest variables
       else if decide (Type_ msg = SetEnvType) then
         let '(key, val, found) := strings.Cut (Message msg) "=" in
         if found then decode_loop name rest (<[key:=val]> variables)
         else ret (Return (None,
                Some ("invalid response from plugin: " +:+ Message msg)))
       else ret (Return (None,
              Some ("invalid response from plugin: " +:+ Type_ msg)))
   end).

Definition executePlugin (w : World) (cmd : Cmd) (command : string)
    (service : ServiceConfig) : M (option Mapping * option error) :=
  (emit OpStdoutPipe ;;
   match StdoutPipe_err (spawn w cmd) with
   | Some err => ret (None, Some err)
   | None =>
   emit OpStart ;;
   match Start_err (spawn w cmd) with
   | Some err => ret (None, Some err)
   | None =>
   emit OpGoWait ;;
   defer (emit OpStdoutClose)
     (action ←
        (if decide (command = "up") then
           emit (OpEvent (CreatingEvent (Name service))) ;; ret (Some "create")
         else if decide (command = "down") then
           emit (OpEvent (RemovingEvent (Name service))) ;; ret (Some "remove")
         else ret None);
      match action with
      | None => ret (None, Some ("unsupported plugin command: " +:+ command))
      | Some action =>
          x ← decode_loop (Name service) (Stdout (spawn w cmd)) ∅;
          match x with
          | Return r => ret r
          | Break variables =>
              emit OpEgWait ;;
              match Wait_err (spawn w cmd) with
              | Some err =>
                  emit (OpEvent (ErrorMessageEvent (Name service) err)) ;;
                  ret (None, Some ("failed to " +:+ action +:+
                                   " external service: " +:+ err))
              | None =>
                  (if decide (command = "up") then
                     emit (OpEvent (CreatedEvent (Name service)))
                   else if decide (command = "down") then
                     emit (OpEvent (RemovedEvent (Name service)))
                   else ret tt) ;;
                  ret (Some variables, None)
              end
          end
      end)
   end end).

(** ** Panics *)

(** A Go computation either completes or panics (a write to a nil map, a
    nil pointer dereference). *)
Inductive Run (A : Type) : Type :=
| Done (a : A)
| Panic.
Arguments Done {A} a.
Arguments Panic {A}.

Definition run_bind {A B} (r : Run A) (k : A → Run B) : Run B :=
  match r with
  | Done a => k a
  | Panic => Panic
  end.

(** [m[k] = v] on a map that may be nil. *)
Definition map_assign (m : option MappingWithEquals) (k : string)
    (v : option string) : Run (option MappingWithEquals) :=
  match m with
  | None => Panic
  | Some m => Done (Some (<[k:=v]> m))
  end.

Definition withEnvironment (s : ServiceConfig)
    (env : option MappingWithEquals) : ServiceConfig :=
  {| Name := Name s; Provider := Provider s; DependsOn := DependsOn s;
     Environment := env |}.

(** The inner loop of runPlugin:
    [for key, val := range variables { s.Environment[prefix+key] = &val }].
    The loop variable [val] is a new variable at each iteration (Go 1.22),
    so each entry points to its own value. *)
Definition addVariables (prefix : string) (variables : Mapping)
    (s : ServiceConfig) : Run ServiceConfig :=
  map_fold
    (λ key val r,
       run_bind r (λ s,
         run_bind (map_assign (Environment s) (prefix +:+ key) (Some val))
           (λ env, Done (withEnvironment s env))))
    (Done s) variables.

(** What runPlugin leaves behind: the error it returns and the project as
    it then is, or a panic. *)
Inductive Outcome : Type :=
| Returns (err : option error) (project : Project)
| Panics.

(** ** The orchestrator *)

Section Orchestrator.

(** Go's [strings.ToUpper], and the quoting of [fmt]'s [%q] verb. *)
Variable ToUpper : string → string.
Variable Quote : string → string.

Definition setupPluginCommand (project : Project)
    (provider : ServiceProviderConfig) (path command : string) : Cmd :=
  {| Path := path;
     Args := ["compose"; "--project-name"; ProjectName project; command] ++
             map (λ kv, "--" +:+ kv.1 +:+ "=" +:+ kv.2)
                 (map_to_list (Options provider)) |}.

Definition checkPluginEnabledInDD (w : World) (plugin : Plugin)
    : option error :=
  if negb (isDesktopIntegrationActive w) then
    Some ("you should enable Docker Desktop integration to use " +:+
          Quote (PluginName plugin) +:+ " provider services")
  else if decide (PluginName plugin = "model") then
    match modelStatus w with
    | Some err =>
        if decide (ExitCode err = Some 1%Z) then
          Some ("you should enable model runner to use " +:+
                Quote (PluginName plugin) +:+ " provider services: " +:+
                ExecText err)
        else None
    | None => None
    end
  else Some ("unsupported provider " +:+ Quote (PluginName plugin)).

(** The outer loop of runPlugin, over the entries [todo] of
    [project.Services], writing into [services]; runPlugin calls it with
    [project.Services] for both. An iteration writes only the entry it
    visits. *)
Definition propagate (service : ServiceConfig) (variables : Mapping)
    (services todo : gmap string ServiceConfig)
    : Run (gmap string ServiceConfig) :=
  map_fold
    (λ name s r,
       run_bind r (λ services,
         match DependsOn s !! Name service with
         | Some _ =>
             let prefix := ToUpper (Name service) +:+ "_" in
             run_bind (addVariables prefix variables s)
               (λ s, Done (<[name:=s]> services))
         | None => Done services
         end))
    (Done services) todo.

Definition runPlugin (w : World) (project : Project)
    (service : ServiceConfig) (command : string) : M Outcome :=
  match Provider service with
  | None => ret Panics
  | Some provider =>
      match GetPlugin w (ProviderType provider) with
      | inr err => ret (Returns (Some err) project)
      | inl plugin =>
          match checkPluginEnabledInDD w plugin with
          | Some err => ret (Returns (Some err) project)
          | None =>
              let cmd := setupPluginCommand project provider
                           (PluginPath plugin) command in
              r ← executePlugin w cmd command service;
              match r.2 with
              | Some err => ret (Returns (Some err) project)
              | None =>
                  match propagate service (default ∅ r.1)
                          (Services project) (Services project) with
                  | Done services =>
                      ret (Returns None
                             {| ProjectName := ProjectName project;
                                Services := services |})
                  | Panic => ret Panics
                  end
              end
          end
      end
  end.

End Orchestrator.

(** ** Describing a run of the decode loop *)

(** The decoded items after which the loop goes on to the next one. *)
Definition continues (d : Decoded) : Prop :=
  match d with
  | DecMsg m =>
      Type_ m = InfoType ∨
      (Type_ m = SetEnvType ∧ strings.Contains (Message m) "=")
  | DecErr _ => False
  end.

(** The variable set after such an item. *)
Definition after (variables : Mapping) (d : Decoded) : Mapping :=
  match d with
  | DecMsg m =>
      if decide (Type_ m = SetEnvType) then
        let '(key, val, found) := strings.Cut (Message m) "=" in
        if found then <[key:=val]> variables else variables
      else variables
  | DecErr _ => variables
  end.

Definition collected (variables : Mapping) (pre : list Decoded) : Mapping :=
  foldl after variables pre.

(** The operations the loop performs on such an item. *)
Definition item_trace (name : string) (d : Decoded) : list Op :=
  match d with
  | DecMsg m =>
      if decide (Type_ m = InfoType) then
        [OpDecode; OpEvent (ErrorMessageEvent name (Message m))]
      else [OpDecode]
  | DecErr _ => [OpDecode]
  end.

Definition loop_trace (name : string) (pre : list Decoded) : list Op :=
  pre ≫= item_trace name.

(** The key a [setenv] message assigns, if it is one with a separator. *)
Definition assigned (d : Decoded) : option string :=
  match d with
  | DecMsg m =>
      if decide (Type_ m = SetEnvType) then
        let '(key, _, found) := strings.Cut (Message m) "=" in
        if found then Some key else None
      else None
  | DecErr _ => None
  end.

(** What executePlugin does before and after the loop. *)
Definition action (command : string) : string :=
  if decide (command = "up") then "create" else "remove".

Definition startingEvent (command name : string) : Event :=
  if decide (command = "up") then CreatingEvent name else RemovingEvent name.

Definition completedEvent (command name : string) : Event :=
  if decide (command = "up") then CreatedEvent name else RemovedEvent name.

Definition prologue (command name : string) : list Op :=
  [OpStdoutPipe; OpStart; OpGoWait; OpEvent (startingEvent command name)].

(** The child was launched for a supported command. *)
Definition started (w : World) (cmd : Cmd) (command : string) : Prop :=
  StdoutPipe_err (spawn w cmd) = None ∧
  Start_err (spawn w cmd) = None ∧
  (command = "up" ∨ command = "down").

(** How often [eg.Wait()] and [decoder.Decode] were called. *)
Definition joins (t : list Op) : nat := length (filter (λ o, o = OpEgWait) t).
Definition decodes (t : list Op) : nat := length (filter (λ o, o = OpDecode) t).

(** The events a trace sends to the progress sink. *)
Definition events (t : list Op) : list Event :=
  omap (λ o, match o with OpEvent e => Some e | _ => None end) t.

(** The protocol violations and the error each is reported with. *)
Inductive violation : Decoded → error → Prop :=
| undecodable err : violation (DecErr err) err
| unknown_kind type text :
    type ≠ ErrorType → type ≠ InfoType → type ≠ SetEnvType →
    violation (msg type text) ("invalid response from plugin: " +:+ type)
| no_separator text :
    ¬ strings.Contains text "=" →
    violation (msg SetEnvType text) ("invalid response from plugin: " +:+ text).

(** runPlugin gets as far as calling executePlugin on [cmd]. *)
Definition launched (Quote : string → string) (w : World) (project : Project)
    (service : ServiceConfig) (command : string) (cmd : Cmd) : Prop :=
  ∃ provider plugin,
    Provider service = Some provider ∧
    GetPlugin w (ProviderType provider) = inl plugin ∧
    checkPluginEnabledInDD Quote w plugin = None ∧
    cmd = setupPluginCommand project provider (PluginPath plugin) command.

(** Reading [s.Environment[k]]; a nil map has no entry. *)
Definition getenv (s : ServiceConfig) (k : string) : option (option string) :=
  match Environment s with
  | Some env => env !! k
  | None => None
  end.

(** [s'] is [s] with, for each entry [key], [val] of [variables], the
    environment entry [prefix +:+ key] set to [val], and nothing else
    changed. *)
Definition gains (prefix : string) (variables : Mapping)
    (s s' : ServiceConfig) : Prop :=
  Name s' = Name s ∧ Provider s' = Provider s ∧ DependsOn s' = DependsOn s ∧
  (∀ key val, variables !! key = Some val →
              getenv s' (prefix +:+ key) = Some (Some val)) ∧
  (∀ k, (∀ key, is_Some (variables !! key) → k ≠ prefix +:+ key) →
        getenv s' k = getenv s k).

(** What the outer loop leaves at the service name [n]: a dependent of
    [service] gains the prefixed variables, any other entry is as it was. *)
Definition propagated (ToUpper : string → string) (service : ServiceConfig)
    (variables : Mapping) (before after : gmap string ServiceConfig)
    (n : string) : Prop :=
  match before !! n with
  | None => after !! n = None
  | Some s =>
      if decide (is_Some (DependsOn s !! Name service)) then
        ∃ s', after !! n = Some s' ∧
              gains (ToUpper (Name service) +:+ "_") variables s s'
      else after !! n = Some s
  end.

(** How a failing invocation that returned [err] after the operations [t]
    failed: before the decode loop, with no event; on a failure of
    [eg.Wait()], with an error event that carries its description; on an
    [error] message, with an error event that carries the text [error]; or
    on a protocol violation, with no event for it. *)
Definition failure_report (Quote : string → string) (w : World)
    (project : Project) (service : ServiceConfig) (command : string)
    (err : error) (t : list Op) : Prop :=
  let name := Name service in
  ((∀ cmd, ¬ (launched Quote w project service command cmd ∧
              started w cmd command)) ∧
   events t = []) ∨
  ∃ cmd,
    launched Quote w project service command cmd ∧ started w cmd command ∧
    ((∃ e, Forall continues (Stdout (spawn w cmd)) ∧
           Wait_err (spawn w cmd) = Some e ∧
           t = prologue command name ++
               loop_trace name (Stdout (spawn w cmd)) ++
               [OpDecode; OpEgWait; OpEvent (ErrorMessageEvent name e);
                OpStdoutClose]) ∨
     (∃ pre post,
        Stdout (spawn w cmd) = pre ++ msg ErrorType err :: post ∧
        Forall continues pre ∧
        t = prologue command name ++ loop_trace name pre ++
            [OpDecode; OpEvent (ErrorMessageEvent name "error");
             OpStdoutClose]) ∨
     (∃ pre d post,
        Stdout (spawn w cmd) = pre ++ d :: post ∧
        Forall continues pre ∧ violation d err ∧
        t = prologue command name ++ loop_trace name pre ++
            [OpDecode; OpStdoutClose])).

(** The join of the process-wait on every path that reaches the decode
    loop. *)
Definition join_on_every_path : Prop :=
  ∀ w cmd command service,
    started w cmd command →
    joins (executePlugin w cmd command service).2 = 1.

(** An error event for the service on every failing invocation. *)
Definition error_event_on_every_failure : Prop :=
  ∀ (ToUpper Quote : string → string) w project service command err project',
    (runPlugin ToUpper Quote w project service command).1 =
      Returns (Some err) project' →
    ∃ text,
      OpEvent (ErrorMessageEvent (Name service) text) ∈
      (runPlugin ToUpper Quote w project service command).2.

Global Instance Contains_dec (s : string) (c : ascii) :
  Decision (strings.Contains s c).
Proof. induction s; simpl; apply _. Defined.

Global Instance continues_dec (d : Decoded) : Decision (continues d).
Proof. destruct d; simpl; apply _. Defined.

(** ** Concrete inputs *)

Definition upper_byte (c : ascii) : ascii :=
  let n := nat_of_ascii c in
  if bool_decide (97 ≤ n ≤ 122)%nat then ascii_of_nat (n - 32) else c.

(** [strings.ToUpper] on ASCII text. *)
Fixpoint asciiToUpper (s : string) : string :=
  match s with
  | EmptyString => EmptyString
  | String c s' => String (upper_byte c) (asciiToUpper s')
  end.

(** [%q] on text that needs no escape. *)
Definition plainQuote (s : string) : string :=
  String "034" (s +:+ String "034" EmptyString).

Definition modelPlugin : Plugin :=
  {| PluginName := "model"; PluginPath := "/usr/libexec/docker-model" |}.

(** A world where the provider resolves, the gate is open and the child
    starts, writes [out] and exits with [wait]. *)
Definition child_world (out : list Decoded) (wait : option error) : World :=
  {| GetPlugin := λ _, inl modelPlugin;
     isDesktopIntegrationActive := true;
     modelStatus := None;
     spawn := λ _, {| StdoutPipe_err := None; Start_err := None;
                      Stdout := out; Wait_err := wait |} |}.

Definition db : ServiceConfig :=
  {| Name := "db";
     Provider := Some {| ProviderType := "model"; Options := ∅ |};
     DependsOn := ∅; Environment := Some ∅ |}.

Definition dependency : ServiceDependency :=
  {| Condition := "service_started"; Restart := false; Required := true |}.

Definition web : ServiceConfig :=
  {| Name := "web"; Provider := None;
     DependsOn := {[ "db" := dependency ]};
     Environment := Some {[ "PORT" := Some "80" ]} |}.

Definition cache : ServiceConfig :=
  {| Name := "cache"; Provider := None; DependsOn := ∅;
     Environment := Some {[ "SIZE" := Some "1" ]} |}.

Definition shop : Project :=
  {| ProjectName := "shop";
     Services := {[ "db" := db; "web" := web; "cache" := cache ]} |}.

Definition run_shop (out : list Decoded) (wait : option error)
    (command : string) : M Outcome :=
  runPlugin asciiToUpper plainQuote (child_world out wait) shop db command.

(** A world where no plugin is registered for the provider type. *)
Definition unresolved_world : World :=
  {| GetPlugin := λ type, inr ("plugin not found: " +:+ type);
     isDesktopIntegrationActive := true;
     modelStatus := None;
     spawn := λ _, {| StdoutPipe_err := None; Start_err := None;
                      Stdout := []; Wait_err := None |} |}.

Definition shop_cmd (command : string) : Cmd :=
  setupPluginCommand shop {| ProviderType := "model"; Options := ∅ |}
    (PluginPath modelPlugin) command.

(** ** Describing traces and streams further *)

(** How often [stdout.Close()] was called. *)
Definition closes (t : list Op) : nat :=
  length (filter (λ o, o = OpStdoutClose) t).

(** The events [CreatedEvent] and [RemovedEvent]. *)
Definition completion (e : Event) : Prop :=
  match e with
  | CreatedEvent _ | RemovedEvent _ => True
  | _ => False
  end.

(** The [info] messages. *)
Definition is_info (d : Decoded) : Prop :=
  match d with
  | DecMsg m => Type_ m = InfoType
  | DecErr _ => False
  end.

Global Instance is_info_dec (d : Decoded) : Decision (is_info d).
Proof. destruct d; simpl; apply _. Defined.

(** The events the loop emits for the [info] messages of a stream, in
    order. *)
Definition info_events (name : string) (stdout : list Decoded) : list Event :=
  omap (λ d, match d with
             | DecMsg m =>
                 if decide (Type_ m = InfoType)
                 then Some (ErrorMessageEvent name (Message m)) else None
             | DecErr _ => None
             end) stdout.

(** The flag setupPluginCommand builds for the option [k], [v]. *)
Definition flag (k v : string) : string := "--" +:+ k +:+ "=" +:+ v.

(** A dependent of [service] whose environment map is nil. *)
Definition nil_dependent (service s : ServiceConfig) : Prop :=
  is_Some (DependsOn s !! Name service) ∧ Environment s = None.

(** A world where [docker model status] fails with [status]. *)
Definition status_world (status : ExecError) : World :=
  {| GetPlugin := λ _, inl modelPlugin;
     isDesktopIntegrationActive := true;
     modelStatus := Some status;
     spawn := λ _, {| StdoutPipe_err := None; Start_err := None;
                      Stdout := []; Wait_err := None |} |}.

(** A service that depends on [db] and has a nil environment map, and
    the project [shop] with it. *)
Definition bare : ServiceConfig :=
  {| Name := "bare"; Provider := None;
     DependsOn := {[ "db" := dependency ]}; Environment := None |}.

Definition shop_bare : Project :=
  {| ProjectName := "shop";
     Services := {[ "db" := db; "web" := web; "bare" := bare ]} |}.

(** A provider with two options. *)
Definition tuned : ServiceProviderConfig :=
  {| ProviderType := "model";
     Options := {[ "size" := "7b"; "gpu" := "on" ]} |}.

(** ** Tactics *)

(** Unfolds the sequencing of computations in the goal. *)
Ltac unfold_bind :=
  repeat (progress (unfold mbind, M_bind, bind, defer, emit, ret; simpl)).

(** Decides a closed decidable proposition by evaluation. *)
Ltac by_evaluation :=
  match goal with
  | |- ?P => apply (bool_decide_unpack P); vm_compute; exact I
  end.

(** * Properties *)

(** ** strings.Cut at a one-byte separator *)

Lemma Cut_cons (b c : ascii) (s : string) :
  strings.Cut (String b s) (String c EmptyString) =
  if decide (c = b) then (EmptyString, s, true)
  else let '(before, after, found) := strings.Cut s (String c EmptyString) in
       (String b before, after, found).
Proof. simpl. destruct (decide (c = b)); [by destruct s|done]. Qed.

Lemma Cut_found (c : ascii) (s : string) :
  strings.Contains s c →
  ∃ key val, strings.Cut s (String c EmptyString) = (key, val, true) ∧
             s = key +:+ String c val ∧ ¬ strings.Contains key c.
Proof.
  induction s as [|b s IH]; [done|].
  intros Hc. rewrite Cut_cons. destruct (decide (c = b)) as [->|Hne].
  - exists EmptyString, s. split_and!; [done|done|intros []].
  - destruct Hc as [?|Hc]; [congruence|].
    destruct (IH Hc) as (key & val & -> & -> & Hk).
    exists (String b key), val. split_and!; [done|done|].
    intros [?|?]; [congruence|done].
Qed.

Lemma Cut_not_found (c : ascii) (s : string) :
  ¬ strings.Contains s c →
  strings.Cut s (String c EmptyString) = (s, EmptyString, false).
Proof.
  induction s as [|b s IH]; [done|].
  intros Hc. rewrite Cut_cons. destruct (decide (c = b)) as [->|Hne].
  - destruct Hc. by left.
  - rewrite IH; [done|]. intros ?. apply Hc. by right.
Qed.

Lemma Cut_key_val (c : ascii) (key val : string) :
  ¬ strings.Contains key c →
  strings.Cut (key +:+ String c val) (String c EmptyString) = (key, val, true).
Proof.
  induction key as [|b key IH]; intros Hk.
  - change (EmptyString +:+ String c val) with (String c val).
    rewrite Cut_cons. by rewrite decide_True.
  - change (String b key +:+ String c val) with (String b (key +:+ String c val)).
    rewrite Cut_cons, decide_False.
    + rewrite IH; [done|]. intros ?. apply Hk. by right.
    + intros ->. apply Hk. by left.
Qed.

(** ** The decode loop, one item at a time *)

Section Loop.

Context (name : string).
Implicit Types (variables : Mapping) (rest pre : list Decoded).

Lemma decode_loop_eof variables :
  decode_loop name [] variables = (Break variables, [OpDecode]).
Proof. done. Qed.

Lemma decode_loop_err err rest variables :
  decode_loop name (DecErr err :: rest) variables =
  (Return (None, Some err), [OpDecode]).
Proof. done. Qed.

Lemma decode_loop_error text rest variables :
  decode_loop name (msg ErrorType text :: rest) variables =
  (Return (None, Some text),
   [OpDecode; OpEvent (ErrorMessageEvent name "error")]).
Proof. done. Qed.

Lemma decode_loop_info text rest variables :
  decode_loop name (msg InfoType text :: rest) variables =
  ((decode_loop name rest variables).1,
   [OpDecode; OpEvent (ErrorMessageEvent name text)] ++
   (decode_loop name rest variables).2).
Proof. unfold_bind. by destruct (decode_loop name rest variables). Qed.

Lemma decode_loop_setenv text key val rest variables :
  strings.Cut text "=" = (key, val, true) →
  decode_loop name (msg SetEnvType text :: rest) variables =
  ((decode_loop name rest (<[key:=val]> variables)).1,
   OpDecode :: (decode_loop name rest (<[key:=val]> variables)).2).
Proof.
  intros Hcut. unfold_bind. rewrite Hcut.
  by destruct (decode_loop name rest _).
Qed.

Lemma decode_loop_malformed text rest variables :
  ¬ strings.Contains text "=" →
  decode_loop name (msg SetEnvType text :: rest) variables =
  (Return (None, Some ("invalid response from plugin: " +:+ text)),
   [OpDecode]).
Proof. intros Hcut. unfold_bind. by rewrite Cut_not_found. Qed.

Lemma decode_loop_unknown type text rest variables :
  type ≠ ErrorType → type ≠ InfoType → type ≠ SetEnvType →
  decode_loop name (msg type text :: rest) variables =
  (Return (None, Some ("invalid response from plugin: " +:+ type)),
   [OpDecode]).
Proof. intros. unfold_bind. by rewrite !decide_False. Qed.

(** Over items after each of which the loop continues, the loop collects
    the variables, performs [loop_trace] and goes on with the rest. *)
Lemma decode_loop_continues pre rest variables :
  Forall continues pre →
  decode_loop name (pre ++ rest) variables =
  ((decode_loop name rest (collected variables pre)).1,
   loop_trace name pre ++
   (decode_loop name rest (collected variables pre)).2).
Proof.
  intros Hpre. revert variables.
  induction Hpre as [|d pre Hd _ IH]; intros variables.
  { simpl. by destruct (decode_loop name rest variables). }
  destruct d as [[type text]|]; [|destruct Hd].
  simpl in Hd. destruct Hd as [Ht|[Ht Hc]]; subst type.
  - change ((_ :: pre) ++ rest) with (msg InfoType text :: (pre ++ rest)).
    rewrite decode_loop_info, IH. done.
  - destruct (Cut_found _ _ Hc) as (key & val & Hcut & _).
    change ((_ :: pre) ++ rest) with (msg SetEnvType text :: (pre ++ rest)).
    rewrite (decode_loop_setenv _ _ _ _ _ Hcut), IH.
    unfold collected at 3 4. simpl. by rewrite Hcut.
Qed.

Lemma decode_loop_all pre variables :
  Forall continues pre →
  decode_loop name pre variables =
  (Break (collected variables pre), loop_trace name pre ++ [OpDecode]).
Proof.
  intros Hpre. rewrite <- (app_nil_r pre) at 1.
  by rewrite decode_loop_continues, decode_loop_eof.
Qed.

End Loop.

(** A stream either lets the loop reach its end, or has a first item at
    which the loop returns. *)
Lemma first_stop (stdout : list Decoded) :
  Forall continues stdout ∨
  ∃ pre d post, stdout = pre ++ d :: post ∧ Forall continues pre ∧
                ¬ continues d.
Proof.
  induction stdout as [|d stdout IH]; [by left|].
  destruct (decide (continues d)) as [Hd|Hd].
  - destruct IH as [IH|(pre & d' & post & -> & Hpre & Hd')].
    + left. by constructor.
    + right. exists (d :: pre), d', post. split_and!; [done| |done].
      by constructor.
  - right. exists [], d, stdout. by split_and!.
Qed.

(** An item at which the loop returns is an [error] message or a protocol
    violation. *)
Lemma stop_kinds (d : Decoded) :
  ¬ continues d →
  (∃ text, d = msg ErrorType text) ∨ (∃ err, violation d err).
Proof.
  intros Hd. destruct d as [[type text]|err]; [|right; eexists; constructor].
  destruct (decide (type = ErrorType)) as [->|Herr]; [left; by eexists|].
  destruct (decide (type = InfoType)) as [->|Hinfo]; [destruct Hd; by left|].
  right. destruct (decide (type = SetEnvType)) as [->|Hset].
  - eexists. apply (no_separator text). intros Hc. apply Hd. by right.
  - eexists. by apply (unknown_kind type text).
Qed.

Lemma decode_loop_violation (name : string) (d : Decoded) (err : error)
    (post : list Decoded) (variables : Mapping) :
  violation d err →
  decode_loop name (d :: post) variables = (Return (None, Some err), [OpDecode]).
Proof.
  intros [].
  - apply decode_loop_err.
  - by apply decode_loop_unknown.
  - by apply decode_loop_malformed.
Qed.

(** ** executePlugin, path by path *)

Section Paths.

Context (w : World) (cmd : Cmd) (command : string) (service : ServiceConfig).

Let p := spawn w cmd.
Let name := Name service.

Lemma executePlugin_pipe_failed err :
  StdoutPipe_err p = Some err →
  executePlugin w cmd command service = ((None, Some err), [OpStdoutPipe]).
Proof. unfold executePlugin. subst p. by intros ->. Qed.

Lemma executePlugin_start_failed err :
  StdoutPipe_err p = None → Start_err p = Some err →
  executePlugin w cmd command service =
  ((None, Some err), [OpStdoutPipe; OpStart]).
Proof. unfold executePlugin. subst p. by intros -> ->. Qed.

Lemma executePlugin_unsupported :
  StdoutPipe_err p = None → Start_err p = None →
  command ≠ "up" → command ≠ "down" →
  executePlugin w cmd command service =
  ((None, Some ("unsupported plugin command: " +:+ command)),
   [OpStdoutPipe; OpStart; OpGoWait; OpStdoutClose]).
Proof.
  unfold executePlugin. subst p. intros -> -> ??.
  by rewrite !decide_False.
Qed.

(** After the prologue the outcome is that of the decode loop and, when
    the loop ends by [break], of [eg.Wait()]. *)
Lemma executePlugin_started :
  started w cmd command →
  executePlugin w cmd command service =
  let x := decode_loop name (Stdout p) ∅ in
  match x.1 with
  | Return r => (r, prologue command name ++ x.2 ++ [OpStdoutClose])
  | Break variables =>
      match Wait_err p with
      | Some err =>
          ((None, Some ("failed to " +:+ action command +:+
                        " external service: " +:+ err)),
           prologue command name ++ x.2 ++
           [OpEgWait; OpEvent (ErrorMessageEvent name err); OpStdoutClose])
      | None =>
          ((Some variables, None),
           prologue command name ++ x.2 ++
           [OpEgWait; OpEvent (completedEvent command name); OpStdoutClose])
      end
  end.
Proof.
  intros (Hpipe & Hstart & Hcommand). unfold executePlugin.
  subst p name. rewrite Hpipe, Hstart.
  destruct Hcommand as [-> | ->]; unfold_bind;
    destruct (decode_loop _ _ _) as [[variables|r] t]; simpl;
    try destruct (Wait_err _); simpl; by rewrite <- ?app_assoc.
Qed.

(** The loop reaches the end of the stream. *)
Lemma executePlugin_eof :
  started w cmd command → Forall continues (Stdout p) →
  executePlugin w cmd command service =
  match Wait_err p with
  | Some err =>
      ((None, Some ("failed to " +:+ action command +:+
                    " external service: " +:+ err)),
       prologue command name ++ loop_trace name (Stdout p) ++
       [OpDecode; OpEgWait; OpEvent (ErrorMessageEvent name err);
        OpStdoutClose])
  | None =>
      ((Some (collected ∅ (Stdout p)), None),
       prologue command name ++ loop_trace name (Stdout p) ++
       [OpDecode; OpEgWait; OpEvent (completedEvent command name);
        OpStdoutClose])
  end.
Proof.
  intros Hstarted Hall. rewrite executePlugin_started by done.
  rewrite (decode_loop_all _ _ _ Hall). simpl.
  destruct (Wait_err p); by rewrite <- ?app_assoc.
Qed.

(** The loop returns at the item [d]. *)
Lemma executePlugin_return pre d post r t :
  started w cmd command →
  Stdout p = pre ++ d :: post → Forall continues pre →
  decode_loop name (d :: post) (collected ∅ pre) = (Return r, t) →
  executePlugin w cmd command service =
  (r, prologue command name ++ loop_trace name pre ++ t ++ [OpStdoutClose]).
Proof.
  intros Hstarted Hout Hpre Hd. rewrite executePlugin_started by done.
  rewrite Hout, (decode_loop_continues _ _ _ _ Hpre), Hd. simpl.
  by rewrite <- ?app_assoc.
Qed.

(** Every way executePlugin can end. *)
Lemma executePlugin_cases :
  let r := executePlugin w cmd command service in
  (¬ started w cmd command ∧
   ∃ err, r.1 = (None, Some err) ∧ events r.2 = [] ∧ joins r.2 = 0) ∨
  (started w cmd command ∧ Forall continues (Stdout p) ∧
   ∃ e, r.2 = prologue command name ++ loop_trace name (Stdout p) ++
              [OpDecode; OpEgWait; OpEvent e; OpStdoutClose] ∧
        match Wait_err p with
        | Some err =>
            r.1 = (None, Some ("failed to " +:+ action command +:+
                               " external service: " +:+ err)) ∧
            e = ErrorMessageEvent name err
        | None =>
            r.1 = (Some (collected ∅ (Stdout p)), None) ∧
            e = completedEvent command name
        end) ∨
  (started w cmd command ∧
   ∃ pre text post,
     Stdout p = pre ++ msg ErrorType text :: post ∧ Forall continues pre ∧
     r = ((None, Some text),
          prologue command name ++ loop_trace name pre ++
          [OpDecode; OpEvent (ErrorMessageEvent name "error");
           OpStdoutClose])) ∨
  (started w cmd command ∧
   ∃ pre d post err,
     Stdout p = pre ++ d :: post ∧ Forall continues pre ∧ violation d err ∧
     r = ((None, Some err),
          prologue command name ++ loop_trace name pre ++
          [OpDecode; OpStdoutClose])).
Proof.
  intros r. subst r. unfold started.
  destruct (StdoutPipe_err p) as [err|] eqn:Hpipe; fold p.
  { left. split; [intros (? & _); congruence|].
    rewrite (executePlugin_pipe_failed _ Hpipe). by eexists. }
  destruct (Start_err p) as [err|] eqn:Hstart.
  { left. split; [intros (_ & ? & _); congruence|].
    rewrite (executePlugin_start_failed _ Hpipe Hstart). by eexists. }
  destruct (decide (command = "up" ∨ command = "down")) as [Hc|Hc]; last first.
  { left. split; [intros (_ & _ & ?); done|].
    rewrite executePlugin_unsupported by tauto. by eexists. }
  assert (started w cmd command) as Hstarted by done.
  right. destruct (first_stop (Stdout p)) as [Hall|(pre & d & post & Hout & Hpre & Hd)].
  { left. split_and!; [done..|]. rewrite executePlugin_eof by done.
    destruct (Wait_err p); by eexists. }
  right. destruct (stop_kinds d Hd) as [[text ->]|[err Hv]].
  - left. split; [done|]. exists pre, text, post. split_and!; [done..|].
    by rewrite (executePlugin_return pre _ post _ _ Hstarted Hout Hpre
                  (decode_loop_error _ _ _ _)).
  - right. split; [done|]. exists pre, d, post, err. split_and!; [done..|].
    by rewrite (executePlugin_return pre _ post _ _ Hstarted Hout Hpre
                  (decode_loop_violation _ _ _ _ _ Hv)).
Qed.

End Paths.

(** ** runPlugin up to the call of executePlugin *)

Section Launch.

Context (ToUpper Quote : string → string).
Context (w : World) (project : Project) (service : ServiceConfig)
        (command : string) (cmd : Cmd).

Lemma runPlugin_launched :
  launched Quote w project service command cmd →
  runPlugin ToUpper Quote w project service command =
  (r ← executePlugin w cmd command service;
   match r.2 with
   | Some err => ret (Returns (Some err) project)
   | None =>
       match propagate ToUpper service (default ∅ r.1)
               (Services project) (Services project) with
       | Done services =>
           ret (Returns None {| ProjectName := ProjectName project;
                                Services := services |})
       | Panic => ret Panics
       end
   end).
Proof.
  intros (provider & plugin & Hprov & Hget & Hcheck & ->).
  unfold runPlugin. by rewrite Hprov, Hget, Hcheck.
Qed.

(** An error of executePlugin is returned as it is, and the project is
    left as it was. *)
Lemma runPlugin_failed variables err t :
  launched Quote w project service command cmd →
  executePlugin w cmd command service = ((variables, Some err), t) →
  runPlugin ToUpper Quote w project service command =
  (Returns (Some err) project, t).
Proof.
  intros Hl He. rewrite runPlugin_launched, He by done.
  unfold_bind. by rewrite app_nil_r.
Qed.

End Launch.

(** ** Traces *)

Lemma decodes_app (t1 t2 : list Op) : decodes (t1 ++ t2) = decodes t1 + decodes t2.
Proof. unfold decodes. by rewrite filter_app, length_app. Qed.

Lemma joins_app (t1 t2 : list Op) : joins (t1 ++ t2) = joins t1 + joins t2.
Proof. unfold joins. by rewrite filter_app, length_app. Qed.

Lemma decodes_loop_trace (name : string) (pre : list Decoded) :
  decodes (loop_trace name pre) = length pre.
Proof.
  induction pre as [|d pre IH]; [done|].
  change (loop_trace name (d :: pre))
    with (item_trace name d ++ loop_trace name pre).
  rewrite decodes_app, IH. destruct d as [m|]; [|done].
  simpl. by destruct (decide (Type_ m = InfoType)).
Qed.

Lemma joins_loop_trace (name : string) (pre : list Decoded) :
  joins (loop_trace name pre) = 0.
Proof.
  induction pre as [|d pre IH]; [done|].
  change (loop_trace name (d :: pre))
    with (item_trace name d ++ loop_trace name pre).
  rewrite joins_app, IH. destruct d as [m|]; [|done].
  simpl. by destruct (decide (Type_ m = InfoType)).
Qed.

Lemma decodes_prologue (command name : string) :
  decodes (prologue command name) = 0.
Proof. done. Qed.

Lemma joins_prologue (command name : string) :
  joins (prologue command name) = 0.
Proof. done. Qed.

(** ** The variables a stream collects *)

Lemma collected_app (variables : Mapping) (pre post : list Decoded) :
  collected variables (pre ++ post) = collected (collected variables pre) post.
Proof. apply foldl_app. Qed.

Lemma after_setenv (variables : Mapping) (key val : string) :
  ¬ strings.Contains key "=" →
  after variables (msg SetEnvType (key +:+ "=" +:+ val)) = <[key:=val]> variables.
Proof.
  intros Hk. unfold after, msg. cbn [Type_ Message].
  rewrite decide_True by done.
  change ("=" +:+ val) with (String "=" val).
  by rewrite (Cut_key_val "=" key val Hk).
Qed.

(** Items that do not assign [key] leave its entry as it is. *)
Lemma collected_other (key : string) (post : list Decoded) (variables : Mapping) :
  Forall (λ d, assigned d ≠ Some key) post →
  collected variables post !! key = variables !! key.
Proof.
  intros Hpost. revert variables.
  induction Hpost as [|d post Hd _ IH]; intros variables; [done|].
  change (collected variables (d :: post))
    with (collected (after variables d) post).
  rewrite IH. destruct d as [m|]; [|done]. simpl in *.
  destruct (decide (Type_ m = SetEnvType)); [|done].
  destruct (strings.Cut (Message m) "=") as [[k v] [|]]; [|done].
  apply lookup_insert_ne. congruence.
Qed.

(** * The message protocol *)

(** C2. A decoded [setenv] message whose payload contains [=] is split at
    the first [=]: the payload is [key], [=], [val] with no [=] in [key].
    The variable set right after the message, which is the set the loop
    ends with when the stream stops there, is the set before the message
    with [key] set to [val]; and when nothing later in the stream assigns
    [key], the set executePlugin returns maps [key] to [val]. *)
Theorem setenv_inserts_key_value (w : World) (cmd : Cmd) (command : string)
    (service : ServiceConfig) (pre post : list Decoded) (payload : string) :
  started w cmd command →
  Wait_err (spawn w cmd) = None →
  Stdout (spawn w cmd) = pre ++ msg SetEnvType payload :: post →
  Forall continues pre → Forall continues post →
  strings.Contains payload "=" →
  ∃ key val,
    payload = key +:+ "=" +:+ val ∧
    ¬ strings.Contains key "=" ∧
    strings.Cut payload "=" = (key, val, true) ∧
    (∃ before,
       (decode_loop (Name service) pre ∅).1 = Break before ∧
       (decode_loop (Name service) (pre ++ [msg SetEnvType payload]) ∅).1 =
         Break (<[key:=val]> before)) ∧
    ∃ V,
      (executePlugin w cmd command service).1 = (Some V, None) ∧
      (Forall (λ d, assigned d ≠ Some key) post → V !! key = Some val).
Proof.
  intros Hstarted Hwait Hout Hpre Hpost Hc.
  destruct (Cut_found _ _ Hc) as (key & val & Hcut & Hpayload & Hkey).
  assert (continues (msg SetEnvType payload)) as Hmsg by (by right).
  assert (after (collected ∅ pre) (msg SetEnvType payload) =
          <[key:=val]> (collected ∅ pre)) as Hafter.
  { unfold after, msg. cbn [Type_ Message].
    by rewrite decide_True, Hcut by done. }
  exists key, val. split_and!; [done..| |].
  - exists (collected ∅ pre). split.
    + by rewrite decode_loop_all.
    + rewrite decode_loop_all by (apply Forall_app_2; [done|by constructor]).
      cbn [fst]. by rewrite collected_app, <- Hafter.
  - assert (Forall continues (Stdout (spawn w cmd))) as Hall.
    { rewrite Hout. apply Forall_app_2; [done|by constructor]. }
    rewrite executePlugin_eof, Hwait by done.
    eexists. split; [done|]. intros Hother. rewrite Hout, collected_app.
    change (collected (collected ∅ pre) (msg SetEnvType payload :: post))
      with (collected (after (collected ∅ pre) (msg SetEnvType payload)) post).
    rewrite (collected_other key post) by done.
    rewrite Hafter. apply lookup_insert_eq.
Qed.

Lemma setenv_inserts_key_value_witness :
  let out := [msg InfoType "pulling"; msg SetEnvType "HOST=db";
              msg SetEnvType "URL=http://db?x=1"; msg SetEnvType "PORT=1"] in
  ∃ key val,
    "URL=http://db?x=1" = key +:+ "=" +:+ val ∧
    ¬ strings.Contains key "=" ∧
    strings.Cut "URL=http://db?x=1" "=" = (key, val, true) ∧
    (∃ before,
       (decode_loop "db" [msg InfoType "pulling"; msg SetEnvType "HOST=db"]
          ∅).1 = Break before ∧
       (decode_loop "db"
          ([msg InfoType "pulling"; msg SetEnvType "HOST=db"] ++
           [msg SetEnvType "URL=http://db?x=1"]) ∅).1 =
         Break (<[key:=val]> before)) ∧
    ∃ V,
      (executePlugin (child_world out None) (mkCmd "/bin/model" []) "up"
         db).1 = (Some V, None) ∧
      (Forall (λ d, assigned d ≠ Some key) [msg SetEnvType "PORT=1"] →
       V !! key = Some val).
Proof.
  intros out.
  apply (setenv_inserts_key_value (child_world out None)
           (mkCmd "/bin/model" []) "up" db
           [msg InfoType "pulling"; msg SetEnvType "HOST=db"]
           [msg SetEnvType "PORT=1"] "URL=http://db?x=1").
  - split_and!; [reflexivity|reflexivity|by left].
  - reflexivity.
  - reflexivity.
  - by_evaluation.
  - by_evaluation.
  - by_evaluation.
Defined.

(** The stream [info], [HOST=db], [URL=http://db?x=1], [PORT=1] yields the
    three variables, [URL] with everything after its first [=]. *)
Example url_variable_returned :
  (executePlugin
     (child_world [msg InfoType "pulling"; msg SetEnvType "HOST=db";
                   msg SetEnvType "URL=http://db?x=1"; msg SetEnvType "PORT=1"]
        None)
     (mkCmd "/bin/model" []) "up" db).1 =
  (Some {[ "HOST" := "db"; "URL" := "http://db?x=1"; "PORT" := "1" ]}, None).
Proof. vm_compute. reflexivity. Qed.

Section Invocation.

Context (ToUpper Quote : string → string).
Context (w : World) (project : Project) (service : ServiceConfig)
        (command : string) (cmd : Cmd).

Let p := spawn w cmd.
Let name := Name service.

(** C10. When two [setenv] messages with the same key are decoded and
    nothing later assigns that key, the invocation succeeds and the
    returned set maps the key to the value of the later message. *)
Theorem duplicate_key_last_value_wins
    (pre mid post : list Decoded) (key v1 v2 : string) :
  started w cmd command → Wait_err p = None →
  Stdout p = pre ++ msg SetEnvType (key +:+ "=" +:+ v1) ::
             mid ++ msg SetEnvType (key +:+ "=" +:+ v2) :: post →
  ¬ strings.Contains key "=" →
  Forall continues pre → Forall continues mid → Forall continues post →
  Forall (λ d, assigned d ≠ Some key) post →
  ∃ variables,
    (executePlugin w cmd command service).1 = (Some variables, None) ∧
    variables !! key = Some v2.
Proof.
  intros Hstarted Hwait Hout Hkey Hpre Hmid Hpost Hother.
  assert (∀ v, continues (msg SetEnvType (key +:+ "=" +:+ v))) as Hset.
  { intros v. right. split; [done|]. simpl.
    clear -key. induction key; simpl; auto. }
  assert (Forall continues (Stdout p)) as Hall.
  { rewrite Hout. repeat (apply Forall_app_2 || apply Forall_cons_2); auto. }
  rewrite executePlugin_eof by done. fold p. rewrite Hwait.
  eexists. split; [done|]. rewrite Hout.
  rewrite collected_app. cbn [collected foldl]. fold (collected).
  rewrite collected_app. cbn [collected foldl].
  rewrite (collected_other key post) by done.
  rewrite after_setenv by done. apply lookup_insert_eq.
Qed.

(** C5. When an [error] message is decoded, executePlugin and runPlugin
    fail with the payload as the error, [Decode] is not called again
    (there is one call per item up to and including the message), and the
    result does not depend on what follows the message in the stream. *)
Theorem error_message_fails_with_payload
    (pre post : list Decoded) (text : string) :
  launched Quote w project service command cmd →
  started w cmd command →
  Stdout p = pre ++ msg ErrorType text :: post →
  Forall continues pre →
  let t := prologue command name ++ loop_trace name pre ++
           [OpDecode; OpEvent (ErrorMessageEvent name "error");
            OpStdoutClose] in
  executePlugin w cmd command service = ((None, Some text), t) ∧
  runPlugin ToUpper Quote w project service command =
    (Returns (Some text) project, t) ∧
  decodes t = S (length pre).
Proof.
  intros Hl Hstarted Hout Hpre t.
  assert (executePlugin w cmd command service = ((None, Some text), t)) as He.
  { by rewrite (executePlugin_return w cmd command service pre _ post _ _
                  Hstarted Hout Hpre (decode_loop_error _ _ _ _)). }
  split_and!; [done|by eapply runPlugin_failed|].
  subst t. rewrite !decodes_app, decodes_prologue, decodes_loop_trace.
  unfold decodes. simpl. lia.
Qed.

(** C6. A decoding failure, a message of a kind other than [error],
    [info] and [setenv], and a [setenv] payload without [=] each make
    executePlugin and runPlugin fail with the error of that violation;
    [Decode] is not called again. *)
Theorem protocol_violation_fails
    (pre post : list Decoded) (d : Decoded) (err : error) :
  launched Quote w project service command cmd →
  started w cmd command →
  Stdout p = pre ++ d :: post →
  Forall continues pre →
  violation d err →
  let t := prologue command name ++ loop_trace name pre ++
           [OpDecode; OpStdoutClose] in
  executePlugin w cmd command service = ((None, Some err), t) ∧
  runPlugin ToUpper Quote w project service command =
    (Returns (Some err) project, t) ∧
  decodes t = S (length pre).
Proof.
  intros Hl Hstarted Hout Hpre Hv t.
  assert (decode_loop name (d :: post) (collected ∅ pre) =
          (Return (None, Some err), [OpDecode])) as Hd.
  { by apply decode_loop_violation. }
  assert (executePlugin w cmd command service = ((None, Some err), t)) as He.
  { by rewrite (executePlugin_return w cmd command service pre _ post _ _
                  Hstarted Hout Hpre Hd). }
  split_and!; [done|by eapply runPlugin_failed|].
  subst t. rewrite !decodes_app, decodes_prologue, decodes_loop_trace.
  unfold decodes. simpl. lia.
Qed.

(** C7. When the stream ends cleanly and [eg.Wait()] reports a failure,
    executePlugin and runPlugin fail with an error that names the
    operation ([create] for [up], [remove] for [down]) and ends with the
    description of the failure, and an error event for the service is
    emitted after the join. *)
Theorem wait_failure_names_operation (err : error) :
  launched Quote w project service command cmd →
  started w cmd command →
  Forall continues (Stdout p) →
  Wait_err p = Some err →
  let failure := "failed to " +:+ action command +:+
                 " external service: " +:+ err in
  let t := prologue command name ++ loop_trace name (Stdout p) ++
           [OpDecode; OpEgWait; OpEvent (ErrorMessageEvent name err);
            OpStdoutClose] in
  executePlugin w cmd command service = ((None, Some failure), t) ∧
  runPlugin ToUpper Quote w project service command =
    (Returns (Some failure) project, t) ∧
  (command = "up" → action command = "create") ∧
  (command = "down" → action command = "remove").
Proof.
  intros Hl Hstarted Hall Hwait failure t.
  assert (executePlugin w cmd command service = ((None, Some failure), t))
    as He.
  { rewrite executePlugin_eof by done. fold p. by rewrite Hwait. }
  split_and!; [done|by eapply runPlugin_failed|by intros ->..].
Qed.

End Invocation.

(** ** Instances on the project [shop] *)

Lemma shop_launched (out : list Decoded) (wait : option error)
    (command : string) :
  launched plainQuote (child_world out wait) shop db command (shop_cmd command).
Proof. by eexists _, _. Defined.

Lemma shop_started (out : list Decoded) (wait : option error) :
  started (child_world out wait) (shop_cmd "up") "up".
Proof. split_and!; [done|done|by left]. Defined.

Lemma duplicate_key_last_value_wins_witness :
  ∃ variables,
    (executePlugin
       (child_world [msg SetEnvType "K=a"; msg InfoType "x";
                     msg SetEnvType "K=b"; msg SetEnvType "Z=1"] None)
       (shop_cmd "up") "up" db).1 = (Some variables, None) ∧
    variables !! "K" = Some "b".
Proof.
  apply (duplicate_key_last_value_wins
           (child_world [msg SetEnvType "K=a"; msg InfoType "x";
                         msg SetEnvType "K=b"; msg SetEnvType "Z=1"] None)
           db "up" (shop_cmd "up")
           [] [msg InfoType "x"] [msg SetEnvType "Z=1"] "K" "a" "b").
  - apply shop_started.
  - reflexivity.
  - reflexivity.
  - by_evaluation.
  - by_evaluation.
  - by_evaluation.
  - by_evaluation.
  - by_evaluation.
Defined.

Lemma error_message_fails_with_payload_witness :
  let t := [OpStdoutPipe; OpStart; OpGoWait; OpEvent (CreatingEvent "db");
            OpDecode; OpDecode; OpEvent (ErrorMessageEvent "db" "error");
            OpStdoutClose] in
  executePlugin
    (child_world [msg SetEnvType "K=a"; msg ErrorType "no capacity";
                  msg SetEnvType "Z=1"] None)
    (shop_cmd "up") "up" db = ((None, Some "no capacity"), t) ∧
  run_shop [msg SetEnvType "K=a"; msg ErrorType "no capacity";
            msg SetEnvType "Z=1"] None "up" =
    (Returns (Some "no capacity") shop, t) ∧
  decodes t = 2.
Proof.
  apply (error_message_fails_with_payload asciiToUpper plainQuote
           (child_world [msg SetEnvType "K=a"; msg ErrorType "no capacity";
                         msg SetEnvType "Z=1"] None)
           shop db "up" (shop_cmd "up")
           [msg SetEnvType "K=a"] [msg SetEnvType "Z=1"] "no capacity").
  - apply shop_launched.
  - apply shop_started.
  - reflexivity.
  - by_evaluation.
Defined.

Lemma protocol_violation_fails_witness :
  let t := [OpStdoutPipe; OpStart; OpGoWait; OpEvent (CreatingEvent "db");
            OpDecode; OpDecode; OpStdoutClose] in
  executePlugin
    (child_world [msg SetEnvType "K=a"; msg SetEnvType "HOST";
                  msg SetEnvType "Z=1"] None)
    (shop_cmd "up") "up" db =
    ((None, Some "invalid response from plugin: HOST"), t) ∧
  run_shop [msg SetEnvType "K=a"; msg SetEnvType "HOST";
            msg SetEnvType "Z=1"] None "up" =
    (Returns (Some "invalid response from plugin: HOST") shop, t) ∧
  decodes t = 2.
Proof.
  apply (protocol_violation_fails asciiToUpper plainQuote
           (child_world [msg SetEnvType "K=a"; msg SetEnvType "HOST";
                         msg SetEnvType "Z=1"] None)
           shop db "up" (shop_cmd "up")
           [msg SetEnvType "K=a"] [msg SetEnvType "Z=1"]
           (msg SetEnvType "HOST") "invalid response from plugin: HOST").
  - apply shop_launched.
  - apply shop_started.
  - reflexivity.
  - by_evaluation.
  - apply (no_separator "HOST"). by_evaluation.
Defined.

Lemma wait_failure_names_operation_witness :
  let t := [OpStdoutPipe; OpStart; OpGoWait; OpEvent (CreatingEvent "db");
            OpDecode; OpDecode; OpEgWait;
            OpEvent (ErrorMessageEvent "db" "exit status 2");
            OpStdoutClose] in
  executePlugin
    (child_world [msg SetEnvType "K=a"] (Some "exit status 2"))
    (shop_cmd "up") "up" db =
    ((None, Some "failed to create external service: exit status 2"), t) ∧
  run_shop [msg SetEnvType "K=a"] (Some "exit status 2") "up" =
    (Returns (Some "failed to create external service: exit status 2") shop,
     t) ∧
  ("up" = "up" → action "up" = "create") ∧
  ("up" = "down" → action "up" = "remove").
Proof.
  apply (wait_failure_names_operation asciiToUpper plainQuote
           (child_world [msg SetEnvType "K=a"] (Some "exit status 2"))
           shop db "up" (shop_cmd "up") "exit status 2").
  - apply shop_launched.
  - apply shop_started.
  - by_evaluation.
  - reflexivity.
Defined.

(** * Joining the process-wait *)

(** After an [error] message executePlugin returns without calling
    [eg.Wait()]. *)
Lemma join_skipped_after_error_message :
  let w := child_world [msg ErrorType "boom"] None in
  started w (shop_cmd "up") "up" ∧
  executePlugin w (shop_cmd "up") "up" db =
    ((None, Some "boom"),
     [OpStdoutPipe; OpStart; OpGoWait; OpEvent (CreatingEvent "db");
      OpDecode; OpEvent (ErrorMessageEvent "db" "error"); OpStdoutClose]) ∧
  joins (executePlugin w (shop_cmd "up") "up" db).2 = 0 ∧
  ¬ join_on_every_path.
Proof.
  split_and!; [apply shop_started|done|done|].
  intros Hjoin.
  specialize (Hjoin (child_world [msg ErrorType "boom"] None)
                (shop_cmd "up") "up" db (shop_started _ _)).
  discriminate Hjoin.
Qed.

(** C4, amended. [eg.Wait()] is called exactly once, after the last
    [Decode], when the decode loop ends at end of stream; when the loop
    returns on a decode error, a protocol violation or an [error] message,
    executePlugin returns without calling it. *)
Theorem join_only_at_end_of_stream (w : World) (cmd : Cmd)
    (command : string) (service : ServiceConfig) :
  started w cmd command →
  let out := Stdout (spawn w cmd) in
  let t := (executePlugin w cmd command service).2 in
  (Forall continues out →
   joins t = 1 ∧
   ∃ e, t = prologue command (Name service) ++
            loop_trace (Name service) out ++
            [OpDecode; OpEgWait; OpEvent e; OpStdoutClose]) ∧
  (¬ Forall continues out → joins t = 0).
Proof.
  intros Hstarted out t. subst out t.
  destruct (executePlugin_cases w cmd command service)
    as [[Hn _]|[(_ & Hall & e & Ht & _)|[(_ & pre & text & post & Hout & Hpre & Hr)
        |(_ & pre & d & post & err & Hout & Hpre & Hv & Hr)]]]; [done|..].
  - split; [|done]. intros _. split; [|by exists e].
    rewrite Ht, !joins_app, joins_prologue, joins_loop_trace. done.
  - assert (¬ Forall continues (Stdout (spawn w cmd))) as Hnot.
    { rewrite Hout. intros Hall.
      apply Forall_app in Hall as [_ Hall]. apply Forall_cons in Hall as [Hc _].
      by destruct Hc as [Hc|[Hc _]]. }
    split; [done|]. intros _.
    rewrite Hr. cbn [snd].
    rewrite !joins_app, joins_prologue, joins_loop_trace. done.
  - assert (¬ Forall continues (Stdout (spawn w cmd))) as Hnot.
    { rewrite Hout. intros Hall.
      apply Forall_app in Hall as [_ Hall]. apply Forall_cons in Hall as [Hc _].
      destruct Hv; [done|destruct Hc as [?|[? _]]; done|].
      destruct Hc as [?|[_ ?]]; done. }
    split; [done|]. intros _.
    rewrite Hr. cbn [snd].
    rewrite !joins_app, joins_prologue, joins_loop_trace. done.
Qed.

Lemma join_only_at_end_of_stream_witness :
  let t := (executePlugin (child_world [msg SetEnvType "K=a"] None)
              (shop_cmd "up") "up" db).2 in
  (Forall continues [msg SetEnvType "K=a"] →
   joins t = 1 ∧
   ∃ e, t = prologue "up" "db" ++ loop_trace "db" [msg SetEnvType "K=a"] ++
            [OpDecode; OpEgWait; OpEvent e; OpStdoutClose]) ∧
  (¬ Forall continues [msg SetEnvType "K=a"] → joins t = 0).
Proof.
  apply (join_only_at_end_of_stream
           (child_world [msg SetEnvType "K=a"] None) (shop_cmd "up") "up" db).
  apply shop_started.
Defined.

(** * Information messages *)

(** C9. For an [info] message the loop emits [ErrorMessageEvent] with the
    payload, the constructor it also uses to report failures, and goes on
    with the next item and the variables as they are. For the stream
    [info "pulling image"], [setenv "TOKEN=abc"] of a child that exits with
    status zero, executePlugin succeeds with [TOKEN] set to [abc], and the
    event for the message is [ErrorMessageEvent "db" "pulling image"]. *)
Theorem info_message_reported_as_error_event :
  (∀ (name text : string) (rest : list Decoded) (variables : Mapping),
     decode_loop name (msg InfoType text :: rest) variables =
     (emit OpDecode;; emit (OpEvent (ErrorMessageEvent name text));;
      decode_loop name rest variables)) ∧
  executePlugin
    (child_world [msg InfoType "pulling image"; msg SetEnvType "TOKEN=abc"]
       None)
    (shop_cmd "up") "up" db =
  ((Some {[ "TOKEN" := "abc" ]}, None),
   [OpStdoutPipe; OpStart; OpGoWait; OpEvent (CreatingEvent "db");
    OpDecode; OpEvent (ErrorMessageEvent "db" "pulling image");
    OpDecode; OpDecode; OpEgWait; OpEvent (CreatedEvent "db");
    OpStdoutClose]).
Proof.
  split; [|reflexivity].
  intros name text rest variables. rewrite decode_loop_info. unfold_bind.
  by destruct (decode_loop name rest variables).
Qed.

(** * Failures and the project *)

Section Failures.

Context (ToUpper Quote : string → string).
Context (w : World) (project : Project) (service : ServiceConfig)
        (command : string).

Lemma launched_unique (cmd cmd' : Cmd) :
  launched Quote w project service command cmd →
  launched Quote w project service command cmd' →
  cmd = cmd'.
Proof.
  intros (provider & plugin & Hprov & Hget & _ & ->)
         (provider' & plugin' & Hprov' & Hget' & _ & ->).
  congruence.
Qed.

(** Before the launch runPlugin performs no operation. *)
Lemma runPlugin_not_launched :
  (∀ cmd, ¬ launched Quote w project service command cmd) →
  (runPlugin ToUpper Quote w project service command).2 = [] ∧
  ((runPlugin ToUpper Quote w project service command).1 = Panics ∨
   ∃ err, (runPlugin ToUpper Quote w project service command).1 =
          Returns (Some err) project).
Proof.
  intros Hnot. unfold runPlugin.
  destruct (Provider service) as [provider|] eqn:Hprov; [|by split; [|left]].
  destruct (GetPlugin w (ProviderType provider)) as [plugin|err] eqn:Hget;
    [|split; [done|right; by eexists]].
  destruct (checkPluginEnabledInDD Quote w plugin) as [err|] eqn:Hcheck;
    [split; [done|right; by eexists]|].
  destruct (Hnot (setupPluginCommand project provider (PluginPath plugin)
                    command)).
  by exists provider, plugin.
Qed.

(** After the launch runPlugin performs the operations of executePlugin,
    and returns its error if it has one. *)
Lemma runPlugin_trace (cmd : Cmd) :
  launched Quote w project service command cmd →
  (runPlugin ToUpper Quote w project service command).2 =
  (executePlugin w cmd command service).2.
Proof.
  intros Hl. rewrite (runPlugin_launched _ _ _ _ _ _ _ Hl). unfold_bind.
  destruct (executePlugin w cmd command service) as [[variables [err|]] t];
    simpl; [by rewrite app_nil_r|].
  destruct (propagate _ _ _ _ _); simpl; by rewrite app_nil_r.
Qed.

Lemma runPlugin_result (cmd : Cmd) :
  launched Quote w project service command cmd →
  (runPlugin ToUpper Quote w project service command).1 =
  match (executePlugin w cmd command service).1.2 with
  | Some err => Returns (Some err) project
  | None =>
      match propagate ToUpper service
              (default ∅ (executePlugin w cmd command service).1.1)
              (Services project) (Services project) with
      | Done services =>
          Returns None {| ProjectName := ProjectName project;
                          Services := services |}
      | Panic => Panics
      end
  end.
Proof.
  intros Hl. rewrite (runPlugin_launched _ _ _ _ _ _ _ Hl). unfold_bind.
  destruct (executePlugin w cmd command service) as [[variables [err|]] t];
    simpl; [done|].
  by destruct (propagate _ _ _ _ _).
Qed.

Lemma launched_or_not :
  (∃ cmd, launched Quote w project service command cmd) ∨
  (∀ cmd, ¬ launched Quote w project service command cmd).
Proof.
  destruct (Provider service) as [provider|] eqn:Hprov; last first.
  { right. intros cmd (? & ? & ? & _). congruence. }
  destruct (GetPlugin w (ProviderType provider)) as [plugin|err] eqn:Hget;
    last first.
  { right. intros cmd (? & ? & ? & ? & _). congruence. }
  destruct (checkPluginEnabledInDD Quote w plugin) as [err|] eqn:Hcheck.
  { right. intros cmd (? & ? & ? & ? & ? & _). congruence. }
  left. eexists. by exists provider, plugin.
Qed.

(** When runPlugin returns an error, the project is as it was. *)
Lemma runPlugin_error_unchanged (err : error) (project' : Project) :
  (runPlugin ToUpper Quote w project service command).1 =
    Returns (Some err) project' →
  project' = project.
Proof.
  intros Hret. destruct launched_or_not as [[cmd Hl]|Hnot].
  - rewrite (runPlugin_result _ Hl) in Hret.
    destruct ((executePlugin w cmd command service).1.2); [congruence|].
    by destruct (propagate _ _ _ _ _).
  - destruct (runPlugin_not_launched Hnot) as [_ [Hp|[err' Hr]]]; congruence.
Qed.

(** C3. executePlugin returns a non-nil variable set only with a nil
    error, after every item of the stream was decoded up to the end of
    the stream and [eg.Wait()] returned no error; with an error it
    returns a nil variable set; and when runPlugin returns an error the
    project is as it was, in particular when executePlugin failed. *)
Theorem no_partial_variable_set (cmd : Cmd) :
  let p := spawn w cmd in
  let r := executePlugin w cmd command service in
  let name := Name service in
  (∀ variables,
     r.1.1 = Some variables →
     r.1.2 = None ∧ started w cmd command ∧
     Forall continues (Stdout p) ∧ Wait_err p = None ∧
     variables = collected ∅ (Stdout p) ∧
     r.2 = prologue command name ++ loop_trace name (Stdout p) ++
           [OpDecode; OpEgWait; OpEvent (completedEvent command name);
            OpStdoutClose]) ∧
  (∀ err, r.1.2 = Some err → r.1.1 = None) ∧
  (∀ err project',
     (runPlugin ToUpper Quote w project service command).1 =
       Returns (Some err) project' →
     project' = project) ∧
  (∀ err,
     launched Quote w project service command cmd →
     r.1.2 = Some err →
     runPlugin ToUpper Quote w project service command =
       (Returns (Some err) project, r.2)).
Proof.
  intros p r name.
  assert (∀ err, r.1.2 = Some err → r.1.1 = None) as Hnil.
  { intros err0. subst r.
    destruct (executePlugin_cases w cmd command service)
      as [(_ & err & Hr & _)|[(_ & _ & e & _ & Hr)
         |[(_ & pre & text & post & _ & _ & Hr)
          |(_ & pre & d & post & err & _ & _ & _ & Hr)]]].
    - by rewrite Hr.
    - destruct (Wait_err (spawn w cmd)); destruct Hr as [Hr _]; by rewrite Hr.
    - by rewrite Hr.
    - by rewrite Hr. }
  split_and!; [|done|..].
  - intros variables Hsome. subst r.
    destruct (executePlugin_cases w cmd command service)
      as [(_ & err & Hr & _)|[(Hstarted & Hall & e & Ht & Hr)
         |[(_ & pre & text & post & _ & _ & Hr)
          |(_ & pre & d & post & err & _ & _ & _ & Hr)]]].
    + by rewrite Hr in Hsome.
    + fold p in Hr, Hall, Ht. destruct (Wait_err p); destruct Hr as [Hr ->].
      * by rewrite Hr in Hsome.
      * rewrite Hr in Hsome |- *. simpl in Hsome. by simplify_eq.
    + by rewrite Hr in Hsome.
    + by rewrite Hr in Hsome.
  - intros err project' Hret. by eapply runPlugin_error_unchanged.
  - intros err Hl Herr. apply injective_projections.
    + rewrite (runPlugin_result _ Hl). fold r. by rewrite Herr.
    + by apply runPlugin_trace.
Qed.

End Failures.

Lemma no_partial_variable_set_witness :
  let ok := child_world [msg SetEnvType "K=a"] None in
  let ko := child_world [msg SetEnvType "K=a"; msg ErrorType "boom"] None in
  ((executePlugin ok (shop_cmd "up") "up" db).1.1 = Some {[ "K" := "a" ]} ∧
   (executePlugin ok (shop_cmd "up") "up" db).1.2 = None ∧
   Forall continues (Stdout (spawn ok (shop_cmd "up"))) ∧
   Wait_err (spawn ok (shop_cmd "up")) = None) ∧
  ((executePlugin ko (shop_cmd "up") "up" db).1.2 = Some "boom" ∧
   (executePlugin ko (shop_cmd "up") "up" db).1.1 = None ∧
   runPlugin asciiToUpper plainQuote ko shop db "up" =
     (Returns (Some "boom") shop,
      (executePlugin ko (shop_cmd "up") "up" db).2)).
Proof.
  intros ok ko. split.
  - destruct (no_partial_variable_set asciiToUpper plainQuote ok shop db "up"
                (shop_cmd "up")) as (Hsome & _).
    destruct (Hsome {[ "K" := "a" ]}) as (? & _ & ? & ? & _); [reflexivity|].
    by split_and!.
  - destruct (no_partial_variable_set asciiToUpper plainQuote ko shop db "up"
                (shop_cmd "up")) as (_ & Hnil & _ & Hrun).
    split_and!; [reflexivity| |].
    + apply (Hnil "boom"). reflexivity.
    + apply (Hrun "boom"); [apply shop_launched|reflexivity].
Defined.

(** * Error events *)

(** When the provider does not resolve, runPlugin returns the error and
    emits nothing. *)
Lemma no_error_event_on_resolution_failure :
  runPlugin asciiToUpper plainQuote unresolved_world shop db "up" =
    (Returns (Some "plugin not found: model") shop, []) ∧
  ¬ error_event_on_every_failure.
Proof.
  split; [done|]. intros Hclaim.
  destruct (Hclaim asciiToUpper plainQuote unresolved_world shop db "up"
              "plugin not found: model" shop eq_refl) as [text Hin].
  by apply elem_of_nil in Hin.
Qed.

(** C8, amended. A failing invocation emits an error event for the
    service when it fails on a failure of [eg.Wait()] after a clean end of
    stream (the event carries the description of the failure) or on an
    [error] message (the event carries the text [error]); it emits no
    event when it fails before the decode loop (resolution, gate, launch,
    unsupported command), and emits none for a decode error or a protocol
    violation. *)
Theorem error_event_only_on_reported_or_wait_failure
    (ToUpper Quote : string → string) (w : World) (project : Project)
    (service : ServiceConfig) (command : string) (err : error)
    (project' : Project) :
  (runPlugin ToUpper Quote w project service command).1 =
    Returns (Some err) project' →
  failure_report Quote w project service command err
    (runPlugin ToUpper Quote w project service command).2.
Proof.
  intros Hret. unfold failure_report.
  destruct (launched_or_not Quote w project service command)
    as [[cmd Hl]|Hnot]; last first.
  { left. split; [intros cmd [Hl _]; by apply (Hnot cmd)|].
    destruct (runPlugin_not_launched ToUpper Quote w project service command
                Hnot) as [-> _]. done. }
  rewrite (runPlugin_trace ToUpper Quote w project service command cmd Hl).
  rewrite (runPlugin_result ToUpper Quote w project service command cmd Hl)
    in Hret.
  destruct (executePlugin_cases w cmd command service)
    as [(Hn & e & Hr & Hev & _)|[(Hstarted & Hall & e & Ht & Hr)
       |[(Hstarted & pre & text & post & Hout & Hpre & Hr)
        |(Hstarted & pre & d & post & e & Hout & Hpre & Hv & Hr)]]].
  - left. split; [|done]. intros cmd' [Hl' Hs'].
    by rewrite <- (launched_unique Quote w project service command _ _ Hl Hl')
      in Hs'.
  - right. exists cmd. split_and!; [done..|]. left.
    destruct (Wait_err (spawn w cmd)) as [e'|]; destruct Hr as [Hr ->].
    + by exists e'.
    + rewrite Hr in Hret. simpl in Hret.
      by destruct (propagate _ _ _ _ _).
  - right. exists cmd. split_and!; [done..|]. right. left.
    rewrite Hr in Hret |- *. simpl in Hret. simplify_eq. by exists pre, post.
  - right. exists cmd. split_and!; [done..|]. right. right.
    rewrite Hr in Hret |- *. simpl in Hret. simplify_eq. by exists pre, d, post.
Qed.

Lemma error_event_only_on_reported_or_wait_failure_witness :
  let w := child_world [msg SetEnvType "K=a"; msg ErrorType "boom"] None in
  (runPlugin asciiToUpper plainQuote w shop db "up").1 =
    Returns (Some "boom") shop ∧
  failure_report plainQuote w shop db "up" "boom"
    (runPlugin asciiToUpper plainQuote w shop db "up").2.
Proof.
  intros w. split; [reflexivity|].
  apply (error_event_only_on_reported_or_wait_failure asciiToUpper plainQuote
           w shop db "up" "boom" shop).
  reflexivity.
Defined.

(** * Propagation into the project *)

Lemma addVariables_gains (prefix : string) (variables : Mapping)
    (s s' : ServiceConfig) :
  addVariables prefix variables s = Done s' → gains prefix variables s s'.
Proof.
  unfold addVariables. revert s'.
  apply (map_fold_weak_ind
           (λ r (m : Mapping), ∀ s', r = Done s' → gains prefix m s s')).
  { intros s' [= <-]. split_and!; [done..| |done].
    intros key val Hkey. by rewrite lookup_empty in Hkey. }
  intros key val m r Hfresh IH s' Hstep.
  destruct r as [s1|]; [|done]. simpl in Hstep.
  destruct (Environment s1) as [env|] eqn:Henv; [|done].
  simpl in Hstep. injection Hstep as <-.
  destruct (IH s1 eq_refl) as (Hname & Hprov & Hdep & Hset & Hkeep).
  split_and!; [done..| |].
  - intros key' val' Hkey'. unfold getenv. simpl.
    destruct (decide (key = key')) as [<-|Hne].
    + rewrite lookup_insert_eq in Hkey'. injection Hkey' as <-.
      by rewrite lookup_insert_eq.
    + rewrite lookup_insert_ne in Hkey' by done.
      rewrite lookup_insert_ne by (intros Heq; by apply (inj _) in Heq).
      specialize (Hset key' val' Hkey'). unfold getenv in Hset.
      by rewrite Henv in Hset.
  - intros k Hk. unfold getenv at 1. simpl.
    rewrite lookup_insert_ne.
    + rewrite <- Hkeep.
      * unfold getenv. by rewrite Henv.
      * intros key' Hkey'. apply Hk.
        destruct (decide (key = key')) as [<-|Hne].
        -- by rewrite lookup_insert_eq.
        -- by rewrite lookup_insert_ne.
    + intros Heq. apply (Hk key); [|done]. by rewrite lookup_insert_eq.
Qed.

(** With a non-nil environment, or no variable, the inner loop completes. *)
Lemma addVariables_done (prefix : string) (variables : Mapping)
    (s : ServiceConfig) :
  is_Some (Environment s) ∨ variables = ∅ →
  ∃ s', addVariables prefix variables s = Done s'.
Proof.
  intros [[env Henv]| ->]; [|by eexists].
  unfold addVariables.
  enough (∃ s', map_fold
                  (λ key val r,
                     run_bind r (λ s,
                       run_bind (map_assign (Environment s) (prefix +:+ key)
                                   (Some val))
                         (λ env, Done (withEnvironment s env))))
                  (Done s) variables = Done s' ∧ is_Some (Environment s'))
    as (s' & ? & _) by eauto.
  apply (map_fold_weak_ind
           (λ r (m : Mapping), ∃ s', r = Done s' ∧ is_Some (Environment s'))).
  { by exists s. }
  intros key val m r _ (s1 & -> & [env1 Henv1]). simpl. rewrite Henv1. simpl.
  by eexists.
Qed.

Section Propagation.

Context (ToUpper Quote : string → string).

Lemma propagate_spec (service : ServiceConfig) (variables : Mapping)
    (services todo services' : gmap string ServiceConfig) (n : string) :
  propagate ToUpper service variables services todo = Done services' →
  match todo !! n with
  | None => services' !! n = services !! n
  | Some s =>
      if decide (is_Some (DependsOn s !! Name service)) then
        ∃ s', services' !! n = Some s' ∧
              gains (ToUpper (Name service) +:+ "_") variables s s'
      else services' !! n = services !! n
  end.
Proof.
  unfold propagate. revert services'.
  apply (map_fold_weak_ind
           (λ r (m : gmap string ServiceConfig),
              ∀ services', r = Done services' →
                match m !! n with
                | None => services' !! n = services !! n
                | Some s =>
                    if decide (is_Some (DependsOn s !! Name service)) then
                      ∃ s', services' !! n = Some s' ∧
                            gains (ToUpper (Name service) +:+ "_")
                              variables s s'
                    else services' !! n = services !! n
                end)).
  { intros services' [= <-]. by rewrite lookup_empty. }
  intros name s m r Hfresh IH services' Hstep.
  destruct r as [acc|]; [|done]. simpl in Hstep. specialize (IH acc eq_refl).
  destruct (decide (name = n)) as [->|Hne].
  - rewrite lookup_insert_eq. rewrite Hfresh in IH.
    destruct (DependsOn s !! Name service) as [dep|] eqn:Hdep.
    + rewrite decide_True by eauto.
      destruct (addVariables _ variables s) as [s1|] eqn:Hadd; [|done].
      simpl in Hstep. injection Hstep as <-. exists s1.
      split; [apply lookup_insert_eq|by apply addVariables_gains].
    + rewrite decide_False by (by intros [? ?]).
      injection Hstep as <-. done.
  - rewrite lookup_insert_ne by done.
    destruct (DependsOn s !! Name service) as [dep|].
    + destruct (addVariables _ variables s) as [s1|]; [|done].
      simpl in Hstep. injection Hstep as <-.
      destruct (m !! n) as [s2|]; [case_decide|];
        by rewrite lookup_insert_ne.
    + by injection Hstep as <-.
Qed.

(** The outer loop completes when every dependent has a non-nil
    environment. *)
Lemma propagate_done (service : ServiceConfig) (variables : Mapping)
    (services todo : gmap string ServiceConfig) :
  (∀ n s, todo !! n = Some s → is_Some (DependsOn s !! Name service) →
          is_Some (Environment s)) →
  ∃ services', propagate ToUpper service variables services todo =
               Done services'.
Proof.
  unfold propagate.
  apply (map_fold_weak_ind
           (λ r (m : gmap string ServiceConfig),
              (∀ n s, m !! n = Some s →
                      is_Some (DependsOn s !! Name service) →
                      is_Some (Environment s)) →
              ∃ services', r = Done services')).
  { by eexists. }
  intros name s m r Hfresh IH Henv.
  destruct IH as [acc ->].
  { intros n s' Hn. apply (Henv n). rewrite lookup_insert_ne; [done|].
    intros <-. congruence. }
  simpl. destruct (DependsOn s !! Name service) as [dep|] eqn:Hdep;
    [|by eexists].
  destruct (addVariables_done (ToUpper (Name service) +:+ "_") variables s)
    as [s1 ->]; [|by eexists].
  left. apply (Henv name); [apply lookup_insert_eq|by eexists].
Qed.

(** C1. After runPlugin returned without error, executePlugin had
    returned a variable set [V]; every service of the project that depends
    on the invoking service has, for each entry [key], [val] of [V], the
    environment entry [ToUpper name +:+ "_" +:+ key] set to [val], and is
    otherwise as it was; every other service is as it was. *)
Theorem variables_reach_dependents_only (w : World) (project : Project)
    (service : ServiceConfig) (command : string) (project' : Project) :
  (runPlugin ToUpper Quote w project service command).1 =
    Returns None project' →
  ∃ cmd V,
    launched Quote w project service command cmd ∧
    executePlugin w cmd command service =
      ((Some V, None), (runPlugin ToUpper Quote w project service command).2) ∧
    ProjectName project' = ProjectName project ∧
    ∀ n, propagated ToUpper service V (Services project) (Services project') n.
Proof.
  intros Hret.
  destruct (launched_or_not Quote w project service command)
    as [[cmd Hl]|Hnot]; last first.
  { destruct (runPlugin_not_launched ToUpper Quote w project service command
                Hnot) as [_ [Hp|[err Hr]]]; congruence. }
  rewrite (runPlugin_result ToUpper Quote w project service command cmd Hl)
    in Hret.
  rewrite (runPlugin_trace ToUpper Quote w project service command cmd Hl).
  destruct (executePlugin w cmd command service) as [[variables [err|]] t]
    eqn:He; simpl in Hret; [done|].
  destruct (propagate _ _ _ _ _) as [services'|] eqn:Hprop; [|done].
  injection Hret as <-.
  destruct variables as [V|].
  - exists cmd, V. split_and!; [done..|].
    intros n. unfold propagated. simpl.
    pose proof (propagate_spec _ _ _ _ _ n Hprop) as Hn. simpl in Hn.
    destruct (Services project !! n) as [s|] eqn:Hs; [|done].
    by case_decide.
  - destruct (executePlugin_cases w cmd command service)
      as [(_ & e & Hr & _)|[(_ & _ & e & _ & Hr)
         |[(_ & pre & text & post & _ & _ & Hr)
          |(_ & pre & d & post & e & _ & _ & _ & Hr)]]];
      rewrite He in Hr; try done.
    destruct (Wait_err (spawn w cmd)); by destruct Hr.
Qed.

(** runPlugin returns without error when executePlugin returned a variable
    set and every dependent has a non-nil environment. *)
Lemma runPlugin_succeeds (w : World) (project : Project)
    (service : ServiceConfig) (command : string) (cmd : Cmd) (V : Mapping) :
  launched Quote w project service command cmd →
  (executePlugin w cmd command service).1 = (Some V, None) →
  (∀ n s, Services project !! n = Some s →
          is_Some (DependsOn s !! Name service) → is_Some (Environment s)) →
  ∃ project',
    (runPlugin ToUpper Quote w project service command).1 =
      Returns None project'.
Proof.
  intros Hl He Henv.
  rewrite (runPlugin_result ToUpper Quote w project service command cmd Hl).
  rewrite He. simpl.
  destruct (propagate_done service V (Services project) (Services project)
              Henv) as [services' ->].
  by eexists.
Qed.

End Propagation.

(** The variables [DB_HOST] and [DB_PORT] returned for the service [db]
    reach its dependent [web] as [DB_DB_HOST] and [DB_DB_PORT]; [cache],
    which does not depend on [db], and [db] itself are as they were. *)
Example db_variables_reach_web :
  ∃ project',
    (run_shop [msg SetEnvType "DB_HOST=127.0.0.1";
               msg SetEnvType "DB_PORT=5432"] None "up").1 =
      Returns None project' ∧
    (Services project' !! "web" ≫= λ s, getenv s "DB_DB_HOST") =
      Some (Some "127.0.0.1") ∧
    (Services project' !! "web" ≫= λ s, getenv s "DB_DB_PORT") =
      Some (Some "5432") ∧
    (Services project' !! "web" ≫= λ s, getenv s "PORT") = Some (Some "80") ∧
    Services project' !! "cache" = Some cache ∧
    Services project' !! "db" = Some db.
Proof. eexists. split; [reflexivity|]. by vm_compute. Qed.

Lemma variables_reach_dependents_only_witness :
  let out := [msg SetEnvType "HOST=127.0.0.1"; msg SetEnvType "PORT=5432"] in
  let r := run_shop out None "up" in
  ∃ project',
    r.1 = Returns None project' ∧
    ∃ cmd V,
      launched plainQuote (child_world out None) shop db "up" cmd ∧
      executePlugin (child_world out None) cmd "up" db = ((Some V, None), r.2) ∧
      ProjectName project' = ProjectName shop ∧
      ∀ n, propagated asciiToUpper db V (Services shop) (Services project') n.
Proof.
  intros out r. eexists. split; [reflexivity|].
  apply (variables_reach_dependents_only asciiToUpper plainQuote
           (child_world out None) shop db "up").
  reflexivity.
Defined.

(** * Further properties of the code *)

(** ** The gate *)

(** X1. checkPluginEnabledInDD returns nil exactly when the Desktop
    integration is active, the plugin is named [model] and
    [docker model status] did not fail with exit code 1: any other failure
    of that command lets the provider through. *)
Theorem gate_open_iff (Quote : string → string) (w : World) (plugin : Plugin) :
  checkPluginEnabledInDD Quote w plugin = None ↔
  isDesktopIntegrationActive w = true ∧
  PluginName plugin = "model" ∧
  ∀ err, modelStatus w = Some err → ExitCode err ≠ Some 1%Z.
Proof.
  unfold checkPluginEnabledInDD.
  destruct (isDesktopIntegrationActive w); simpl; [|by split; [|intros [? _]]].
  destruct (decide (PluginName plugin = "model")) as [Hname|Hname];
    [|by split; [|intros (_ & ? & _)]].
  destruct (modelStatus w) as [err|]; [|by split].
  destruct (decide (ExitCode err = Some 1%Z)) as [Hcode|Hcode].
  - split; [done|]. intros (_ & _ & Hstatus). by destruct (Hstatus err).
  - split; [|done]. intros _. split_and!; [done..|]. by intros ? [= <-].
Qed.

Lemma gate_open_iff_witness :
  checkPluginEnabledInDD plainQuote
    (status_world {| ExitCode := Some 2%Z; ExecText := "exit status 2" |})
    modelPlugin = None.
Proof.
  apply (gate_open_iff plainQuote
           (status_world {| ExitCode := Some 2%Z; ExecText := "exit status 2" |})
           modelPlugin).
  split_and!; [reflexivity..|]. intros err [= <-]. discriminate.
Defined.

(** X2. runPlugin calls [cmd.Start()] only when the service has a provider
    whose type resolves to a plugin named [model], the Desktop integration
    is active, and the output pipe of the command was obtained: for any
    other provider no child process is started. *)
Theorem child_started_only_through_gate (ToUpper Quote : string → string)
    (w : World) (project : Project) (service : ServiceConfig)
    (command : string) :
  OpStart ∈ (runPlugin ToUpper Quote w project service command).2 →
  ∃ provider plugin,
    Provider service = Some provider ∧
    GetPlugin w (ProviderType provider) = inl plugin ∧
    isDesktopIntegrationActive w = true ∧
    PluginName plugin = "model" ∧
    StdoutPipe_err
      (spawn w (setupPluginCommand project provider (PluginPath plugin)
                  command)) = None.
Proof.
  intros Hstart.
  destruct (launched_or_not Quote w project service command)
    as [[cmd Hl]|Hnot]; last first.
  { destruct (runPlugin_not_launched ToUpper Quote w project service command
                Hnot) as [Ht _].
    rewrite Ht in Hstart. by apply elem_of_nil in Hstart. }
  rewrite (runPlugin_trace ToUpper Quote w project service command cmd Hl)
    in Hstart.
  destruct Hl as (provider & plugin & Hprov & Hget & Hcheck & ->).
  apply gate_open_iff in Hcheck as (Hactive & Hname & _).
  exists provider, plugin. split_and!; [done..|].
  destruct (StdoutPipe_err (spawn w _)) as [err|] eqn:Hpipe; [|done].
  rewrite (executePlugin_pipe_failed _ _ _ _ _ Hpipe) in Hstart.
  apply list_elem_of_singleton in Hstart. discriminate.
Qed.

Lemma child_started_only_through_gate_witness :
  ∃ provider plugin,
    Provider db = Some provider ∧
    GetPlugin (child_world [] None) (ProviderType provider) = inl plugin ∧
    isDesktopIntegrationActive (child_world [] None) = true ∧
    PluginName plugin = "model" ∧
    StdoutPipe_err
      (spawn (child_world [] None)
         (setupPluginCommand shop provider (PluginPath plugin) "up")) = None.
Proof.
  apply (child_started_only_through_gate asciiToUpper plainQuote
           (child_world [] None) shop db "up").
  by_evaluation.
Defined.

(** X3. The command is checked only after the child was started: for a
    command other than [up] and [down], executePlugin starts the child and
    the wait goroutine, then returns [unsupported plugin command] without
    decoding, emitting an event or joining the wait; the deferred close
    runs, and runPlugin returns the error with the project as it was. *)
Theorem unsupported_command_after_start (ToUpper Quote : string → string)
    (w : World) (project : Project) (service : ServiceConfig)
    (command : string) (cmd : Cmd) :
  launched Quote w project service command cmd →
  StdoutPipe_err (spawn w cmd) = None →
  Start_err (spawn w cmd) = None →
  command ≠ "up" → command ≠ "down" →
  runPlugin ToUpper Quote w project service command =
  (Returns (Some ("unsupported plugin command: " +:+ command)) project,
   [OpStdoutPipe; OpStart; OpGoWait; OpStdoutClose]).
Proof.
  intros Hl Hpipe Hstart Hup Hdown.
  eapply runPlugin_failed; [done|].
  by apply executePlugin_unsupported.
Qed.

Lemma unsupported_command_after_start_witness :
  run_shop [msg SetEnvType "K=a"] None "restart" =
  (Returns (Some "unsupported plugin command: restart") shop,
   [OpStdoutPipe; OpStart; OpGoWait; OpStdoutClose]).
Proof.
  apply (unsupported_command_after_start asciiToUpper plainQuote
           (child_world [msg SetEnvType "K=a"] None) shop db "restart"
           (shop_cmd "restart")).
  - apply shop_launched.
  - reflexivity.
  - reflexivity.
  - discriminate.
  - discriminate.
Defined.

(** ** The operations of executePlugin *)

Lemma closes_app (t1 t2 : list Op) : closes (t1 ++ t2) = closes t1 + closes t2.
Proof. unfold closes. by rewrite filter_app, length_app. Qed.

Lemma closes_loop_trace (name : string) (pre : list Decoded) :
  closes (loop_trace name pre) = 0.
Proof.
  induction pre as [|d pre IH]; [done|].
  change (loop_trace name (d :: pre))
    with (item_trace name d ++ loop_trace name pre).
  rewrite closes_app, IH. destruct d as [m|]; [|done].
  simpl. by destruct (decide (Type_ m = InfoType)).
Qed.

Lemma events_app (t1 t2 : list Op) : events (t1 ++ t2) = events t1 ++ events t2.
Proof. apply omap_app. Qed.

Lemma events_loop_trace (name : string) (pre : list Decoded) :
  events (loop_trace name pre) = info_events name pre.
Proof.
  induction pre as [|d pre IH]; [done|].
  change (loop_trace name (d :: pre))
    with (item_trace name d ++ loop_trace name pre).
  rewrite events_app, IH. destruct d as [m|]; [|done].
  unfold info_events. simpl. by destruct (decide (Type_ m = InfoType)).
Qed.

Lemma info_events_no_completion (name : string) (pre : list Decoded)
    (e : Event) :
  e ∈ info_events name pre → ¬ completion e.
Proof.
  intros He. apply list_elem_of_omap in He as (d & _ & Hd).
  destruct d as [m|]; [|done].
  destruct (decide (Type_ m = InfoType)); [|done].
  injection Hd as <-. by intros [].
Qed.

Lemma startingEvent_no_completion (command name : string) :
  ¬ completion (startingEvent command name).
Proof. unfold startingEvent. by case_decide; intros []. Qed.

Lemma completedEvent_completion (command name : string) :
  completion (completedEvent command name).
Proof. unfold completedEvent. by case_decide. Qed.

(** X4. Once [cmd.StdoutPipe()] and [cmd.Start()] succeeded, executePlugin
    calls [stdout.Close()] exactly once, as its last operation, whatever
    the command, the stream and the outcome of the wait; when either of
    the two failed it does not call it. *)
Theorem stdout_closed_once_when_started (w : World) (cmd : Cmd)
    (command : string) (service : ServiceConfig) :
  let t := (executePlugin w cmd command service).2 in
  match StdoutPipe_err (spawn w cmd), Start_err (spawn w cmd) with
  | None, None => closes t = 1 ∧ last t = Some OpStdoutClose
  | _, _ => closes t = 0
  end.
Proof.
  intros t. subst t.
  destruct (StdoutPipe_err (spawn w cmd)) as [err|] eqn:Hpipe.
  { by rewrite (executePlugin_pipe_failed _ _ _ _ _ Hpipe). }
  destruct (Start_err (spawn w cmd)) as [err|] eqn:Hstart.
  { by rewrite (executePlugin_start_failed _ _ _ _ _ Hpipe Hstart). }
  destruct (decide (command = "up" ∨ command = "down")) as [Hc|Hc]; last first.
  { rewrite executePlugin_unsupported by tauto. done. }
  assert (∀ pre tail,
            closes tail = 0 →
            closes (prologue command (Name service) ++
                    loop_trace (Name service) pre ++ tail ++ [OpStdoutClose])
              = 1 ∧
            last (prologue command (Name service) ++
                  loop_trace (Name service) pre ++ tail ++ [OpStdoutClose])
              = Some OpStdoutClose) as Hshape.
  { intros pre tail Htail. split.
    - rewrite !closes_app, closes_loop_trace, Htail. done.
    - rewrite !app_assoc. apply last_snoc. }
  destruct (executePlugin_cases w cmd command service)
    as [[Hn _]|[(_ & _ & e & Ht & _)|[(_ & pre & text & post & _ & _ & Hr)
        |(_ & pre & d & post & err & _ & _ & _ & Hr)]]].
  - by destruct Hn.
  - rewrite Ht. by apply (Hshape _ [OpDecode; OpEgWait; OpEvent e]).
  - rewrite Hr.
    by apply (Hshape _ [OpDecode; OpEvent (ErrorMessageEvent _ "error")]).
  - rewrite Hr. by apply (Hshape _ [OpDecode]).
Qed.

(** X5. executePlugin emits a [CreatedEvent] or a [RemovedEvent] exactly
    when it returns a variable set and no error: the completion of the
    service is never reported for an invocation that fails. *)
Theorem completion_event_iff_success (w : World) (cmd : Cmd)
    (command : string) (service : ServiceConfig) :
  (∃ e, completion e ∧ e ∈ events (executePlugin w cmd command service).2) ↔
  (∃ V, (executePlugin w cmd command service).1 = (Some V, None)).
Proof.
  assert (∀ pre tail e,
            completion e →
            e ∈ events (prologue command (Name service) ++
                        loop_trace (Name service) pre ++ tail) →
            e ∈ events tail) as Htail.
  { intros pre tail e Hcompl.
    rewrite !events_app, events_loop_trace, !elem_of_app.
    intros [He|[He|He]]; [|by apply info_events_no_completion in He|done].
    apply list_elem_of_singleton in He as ->.
    by apply startingEvent_no_completion in Hcompl. }
  destruct (executePlugin_cases w cmd command service)
    as [(_ & err & Hr & Hev & _)|[(_ & _ & e & Ht & Hr)
       |[(_ & pre & text & post & _ & _ & Hr)
        |(_ & pre & d & post & err & _ & _ & _ & Hr)]]].
  - rewrite Hr, Hev. split; [intros (e & _ & He)|intros [V [=]]].
    by apply elem_of_nil in He.
  - rewrite Ht. destruct (Wait_err (spawn w cmd)) as [err|];
      destruct Hr as [Hr ->]; rewrite Hr.
    + split; [intros (e & Hcompl & He)|intros [V [=]]].
      apply Htail in He; [|done].
      apply list_elem_of_singleton in He as ->. destruct Hcompl.
    + split; [by eexists|]. intros _. eexists.
      split; [apply completedEvent_completion|].
      rewrite !events_app. rewrite !elem_of_app. right. right.
      by apply list_elem_of_singleton.
  - rewrite Hr. split; [intros (e & Hcompl & He)|intros [V [=]]].
    apply Htail in He; [|done].
    apply list_elem_of_singleton in He as ->. destruct Hcompl.
  - rewrite Hr. split; [intros (e & Hcompl & He)|intros [V [=]]].
    apply Htail in He; [|done]. by apply elem_of_nil in He.
Qed.

Lemma completion_event_iff_success_witness :
  ∃ e, completion e ∧
       e ∈ events (executePlugin (child_world [msg InfoType "x"] None)
                     (shop_cmd "up") "up" db).2.
Proof.
  apply (completion_event_iff_success (child_world [msg InfoType "x"] None)
           (shop_cmd "up") "up" db).
  by eexists.
Defined.

(** X6. When the stream ends cleanly and the wait returns no error, the
    events executePlugin emits are, in this order: the starting event of
    the command, one event per [info] message in the order of the stream,
    and the completion event of the command; [setenv] messages emit
    nothing. *)
Theorem success_events_in_order (w : World) (cmd : Cmd) (command : string)
    (service : ServiceConfig) :
  started w cmd command →
  Forall continues (Stdout (spawn w cmd)) →
  Wait_err (spawn w cmd) = None →
  let name := Name service in
  let between := info_events name (Stdout (spawn w cmd)) in
  let t := (executePlugin w cmd command service).2 in
  (command = "up" →
   events t = CreatingEvent name :: between ++ [CreatedEvent name]) ∧
  (command = "down" →
   events t = RemovingEvent name :: between ++ [RemovedEvent name]).
Proof.
  intros Hstarted Hall Hwait name between t. subst name between t.
  rewrite executePlugin_eof, Hwait by done. cbn [snd].
  rewrite !events_app, events_loop_trace.
  by split; intros ->.
Qed.

Lemma success_events_in_order_witness :
  let out := [msg InfoType "pulling"; msg SetEnvType "K=a";
              msg InfoType "ready"] in
  events (executePlugin (child_world out None) (shop_cmd "up") "up" db).2 =
    [CreatingEvent "db"; ErrorMessageEvent "db" "pulling";
     ErrorMessageEvent "db" "ready"; CreatedEvent "db"].
Proof.
  intros out.
  apply (success_events_in_order (child_world out None) (shop_cmd "up") "up"
           db).
  - apply shop_started.
  - by_evaluation.
  - reflexivity.
  - reflexivity.
Defined.

(** ** The returned variable set *)

Lemma after_None (variables : Mapping) (d : Decoded) (key : string) :
  after variables d !! key = None ↔
  variables !! key = None ∧ assigned d ≠ Some key.
Proof.
  destruct d as [m|]; simpl; [|intuition congruence].
  destruct (decide (Type_ m = SetEnvType)); [|intuition congruence].
  destruct (strings.Cut (Message m) "=") as [[k v] [|]];
    [|intuition congruence].
  rewrite lookup_insert_None. intuition congruence.
Qed.

Lemma collected_None (key : string) (stdout : list Decoded)
    (variables : Mapping) :
  collected variables stdout !! key = None ↔
  variables !! key = None ∧ Forall (λ d, assigned d ≠ Some key) stdout.
Proof.
  revert variables. induction stdout as [|d stdout IH]; intros variables.
  { split; [by split|by intros [? _]]. }
  change (collected variables (d :: stdout))
    with (collected (after variables d) stdout).
  rewrite IH, after_None, Forall_cons. tauto.
Qed.

(** X7. When executePlugin succeeds, a key is absent from the returned
    variable set exactly when no [setenv] message of the stream assigned
    it; in particular a child that sends no [setenv] message yields the
    empty, non-nil set. *)
Theorem unassigned_keys_absent (w : World) (cmd : Cmd) (command : string)
    (service : ServiceConfig) :
  started w cmd command →
  Forall continues (Stdout (spawn w cmd)) →
  Wait_err (spawn w cmd) = None →
  ∃ V,
    (executePlugin w cmd command service).1 = (Some V, None) ∧
    (∀ key, V !! key = None ↔
            Forall (λ d, assigned d ≠ Some key) (Stdout (spawn w cmd))) ∧
    (Forall (λ d, assigned d = None) (Stdout (spawn w cmd)) → V = ∅).
Proof.
  intros Hstarted Hall Hwait.
  rewrite executePlugin_eof, Hwait by done.
  eexists. split; [done|]. split.
  - intros key. rewrite collected_None, lookup_empty. tauto.
  - intros Hnone. apply map_eq. intros key. rewrite lookup_empty.
    apply collected_None. split; [apply lookup_empty|].
    eapply Forall_impl; [done|]. intros d Hd. by rewrite Hd.
Qed.

Lemma unassigned_keys_absent_witness :
  let out := [msg InfoType "pulling"; msg SetEnvType "K=a"] in
  ∃ V,
    (executePlugin (child_world out None) (shop_cmd "up") "up" db).1 =
      (Some V, None) ∧
    (∀ key, V !! key = None ↔ Forall (λ d, assigned d ≠ Some key) out) ∧
    (Forall (λ d, assigned d = None) out → V = ∅).
Proof.
  intros out.
  apply (unassigned_keys_absent (child_world out None) (shop_cmd "up") "up" db).
  - apply shop_started.
  - by_evaluation.
  - reflexivity.
Defined.

(** The result of executePlugin, without its operations. *)
Lemma executePlugin_result (w : World) (cmd : Cmd) (command : string)
    (service : ServiceConfig) :
  (executePlugin w cmd command service).1 =
  match StdoutPipe_err (spawn w cmd) with
  | Some err => (None, Some err)
  | None =>
      match Start_err (spawn w cmd) with
      | Some err => (None, Some err)
      | None =>
          if decide (command = "up" ∨ command = "down") then
            match (decode_loop (Name service) (Stdout (spawn w cmd)) ∅).1 with
            | Return r => r
            | Break V =>
                match Wait_err (spawn w cmd) with
                | Some err =>
                    (None, Some ("failed to " +:+ action command +:+
                                 " external service: " +:+ err))
                | None => (Some V, None)
                end
            end
          else (None, Some ("unsupported plugin command: " +:+ command))
      end
  end.
Proof.
  destruct (StdoutPipe_err (spawn w cmd)) as [err|] eqn:Hpipe.
  { by rewrite (executePlugin_pipe_failed _ _ _ _ _ Hpipe). }
  destruct (Start_err (spawn w cmd)) as [err|] eqn:Hstart.
  { by rewrite (executePlugin_start_failed _ _ _ _ _ Hpipe Hstart). }
  destruct (decide (command = "up" ∨ command = "down")) as [Hc|Hc]; last first.
  { rewrite executePlugin_unsupported by tauto. done. }
  rewrite executePlugin_started by done. simpl.
  destruct (decode_loop _ _ _).1 as [V|r]; [|done].
  by destruct (Wait_err (spawn w cmd)).
Qed.

(** Dropping the [info] messages of a stream does not change how the loop
    ends. *)
Lemma decode_loop_without_info (name : string) (stdout : list Decoded)
    (variables : Mapping) :
  (decode_loop name (filter (λ d, ¬ is_info d) stdout) variables).1 =
  (decode_loop name stdout variables).1.
Proof.
  revert variables. induction stdout as [|d stdout IH]; intros variables;
    [done|].
  destruct (decide (is_info d)) as [Hinfo|Hinfo].
  - rewrite filter_cons_False by (by intros ?).
    destruct d as [[type text]|]; [|done]. simpl in Hinfo. subst type.
    change (DecMsg _) with (msg InfoType text).
    by rewrite decode_loop_info, IH.
  - rewrite filter_cons_True by done.
    destruct (decide (continues d)) as [Hd|Hd].
    + destruct d as [[type text]|]; [|done].
      destruct Hd as [Hd|[Hd Hc]]; [done|]. simpl in Hd, Hc. subst type.
      destruct (Cut_found _ _ Hc) as (key & val & Hcut & _).
      change (DecMsg _) with (msg SetEnvType text).
      by rewrite !(decode_loop_setenv _ _ _ _ _ _ Hcut), IH.
    + destruct (stop_kinds d Hd) as [[text ->]|[err Hv]].
      * by rewrite !decode_loop_error.
      * by rewrite !(decode_loop_violation _ _ _ _ _ Hv).
Qed.

(** X8. [info] messages do not change the result of executePlugin: a
    child that behaves the same but sends no [info] message gets the same
    variable set and the same error. *)
Theorem info_messages_leave_result (w w' : World) (cmd cmd' : Cmd)
    (command : string) (service : ServiceConfig) :
  StdoutPipe_err (spawn w' cmd') = StdoutPipe_err (spawn w cmd) →
  Start_err (spawn w' cmd') = Start_err (spawn w cmd) →
  Wait_err (spawn w' cmd') = Wait_err (spawn w cmd) →
  Stdout (spawn w' cmd') = filter (λ d, ¬ is_info d) (Stdout (spawn w cmd)) →
  (executePlugin w' cmd' command service).1 =
  (executePlugin w cmd command service).1.
Proof.
  intros Hpipe Hstart Hwait Hout.
  rewrite !executePlugin_result, Hpipe, Hstart, Hwait, Hout.
  by rewrite decode_loop_without_info.
Qed.

Lemma info_messages_leave_result_witness :
  (executePlugin (child_world [msg SetEnvType "K=a"] None)
     (shop_cmd "up") "up" db).1 =
  (executePlugin
     (child_world [msg InfoType "pulling"; msg SetEnvType "K=a";
                   msg InfoType "ready"] None)
     (shop_cmd "up") "up" db).1.
Proof.
  apply (info_messages_leave_result
           (child_world [msg InfoType "pulling"; msg SetEnvType "K=a";
                         msg InfoType "ready"] None)
           (child_world [msg SetEnvType "K=a"] None)
           (shop_cmd "up") (shop_cmd "up") "up" db); reflexivity.
Defined.

(** ** The propagation loops *)

Lemma withEnvironment_same (s : ServiceConfig) :
  withEnvironment s (Environment s) = s.
Proof. by destruct s. Qed.

(** The inner loop leaves a service as it is when the service has the
    prefixed variables already. *)
Lemma addVariables_fixed (prefix : string) (variables : Mapping)
    (s : ServiceConfig) :
  (∀ key val, variables !! key = Some val →
              getenv s (prefix +:+ key) = Some (Some val)) →
  addVariables prefix variables s = Done s.
Proof.
  unfold addVariables.
  apply (map_fold_weak_ind
           (λ r (m : Mapping),
              (∀ key val, m !! key = Some val →
                          getenv s (prefix +:+ key) = Some (Some val)) →
              r = Done s)); [done|].
  intros key val m r Hfresh IH Hhas.
  rewrite IH; last first.
  { intros key' val' Hkey'. apply Hhas. rewrite lookup_insert_ne; [done|].
    intros <-. congruence. }
  specialize (Hhas key val (lookup_insert_eq _ _ _)). unfold getenv in Hhas.
  simpl. destruct (Environment s) as [env|] eqn:Henv; [|done]. simpl.
  rewrite insert_id by done. by rewrite <- Henv, withEnvironment_same.
Qed.

(** The inner loop panics on a nil environment map as soon as there is a
    variable to write, and only then. *)
Lemma addVariables_panics (prefix : string) (variables : Mapping)
    (s : ServiceConfig) :
  addVariables prefix variables s = Panic ↔
  variables ≠ ∅ ∧ Environment s = None.
Proof.
  split.
  - intros Hpanic. destruct (decide (variables = ∅)) as [->|Hne].
    { by destruct (addVariables_done prefix ∅ s (or_intror eq_refl))
        as [s' Hs']; rewrite Hs' in Hpanic. }
    destruct (Environment s) as [env|] eqn:Henv; [|done].
    destruct (addVariables_done prefix variables s) as [s' Hs'];
      [left; by eexists|congruence].
  - intros [Hne Henv]. unfold addVariables.
    enough (variables = ∅ ∧
            map_fold
              (λ key val r,
                 run_bind r (λ s,
                   run_bind (map_assign (Environment s) (prefix +:+ key)
                               (Some val))
                     (λ env, Done (withEnvironment s env))))
              (Done s) variables = Done s ∨
            variables ≠ ∅ ∧
            map_fold
              (λ key val r,
                 run_bind r (λ s,
                   run_bind (map_assign (Environment s) (prefix +:+ key)
                               (Some val))
                     (λ env, Done (withEnvironment s env))))
              (Done s) variables = Panic) as [[? _]|[_ ?]]; [done|done|].
    apply (map_fold_weak_ind
             (λ r (m : Mapping),
                m = ∅ ∧ r = Done s ∨ m ≠ ∅ ∧ r = Panic)); [by left|].
    intros key val m r Hfresh [[_ ->]|[_ ->]]; right.
    + split; [apply insert_non_empty|]. simpl. by rewrite Henv.
    + split; [apply insert_non_empty|done].
Qed.

Section Rerun.

Context (ToUpper Quote : string → string).

(** The outer loop leaves the services as they are when every dependent
    has the prefixed variables already. *)
Lemma propagate_fixed (service : ServiceConfig) (variables : Mapping)
    (services : gmap string ServiceConfig) :
  (∀ n s, services !! n = Some s →
          is_Some (DependsOn s !! Name service) →
          ∀ key val, variables !! key = Some val →
                     getenv s ((ToUpper (Name service) +:+ "_") +:+ key) =
                     Some (Some val)) →
  propagate ToUpper service variables services services = Done services.
Proof.
  intros Hhas. unfold propagate.
  enough (∀ todo,
            (∀ n s, todo !! n = Some s → services !! n = Some s) →
            map_fold
              (λ name s r,
                 run_bind r (λ services,
                   match DependsOn s !! Name service with
                   | Some _ =>
                       let prefix := ToUpper (Name service) +:+ "_" in
                       run_bind (addVariables prefix variables s)
                         (λ s, Done (<[name:=s]> services))
                   | None => Done services
                   end))
              (Done services) todo = Done services) as Hfold by eauto.
  intros todo.
  apply (map_fold_weak_ind
           (λ r (m : gmap string ServiceConfig),
              (∀ n s, m !! n = Some s → services !! n = Some s) →
              r = Done services)); [done|].
  intros name s m r Hfresh IH Hsub.
  rewrite IH; last first.
  { intros n s' Hn. apply Hsub. rewrite lookup_insert_ne; [done|].
    intros <-. congruence. }
  specialize (Hsub name s (lookup_insert_eq _ _ _)). simpl.
  destruct (DependsOn s !! Name service) as [dep|] eqn:Hdep; [|done].
  rewrite addVariables_fixed by (apply (Hhas name s); eauto). simpl.
  by rewrite insert_id.
Qed.

(** The outer loop panics exactly when there is a variable to write and a
    dependent whose environment map is nil. *)
Lemma propagate_panics (service : ServiceConfig) (variables : Mapping)
    (services todo : gmap string ServiceConfig) :
  propagate ToUpper service variables services todo = Panic ↔
  variables ≠ ∅ ∧ ∃ n s, todo !! n = Some s ∧ nil_dependent service s.
Proof.
  unfold propagate.
  apply (map_fold_weak_ind
           (λ r (m : gmap string ServiceConfig),
              r = Panic ↔
              variables ≠ ∅ ∧ ∃ n s, m !! n = Some s ∧ nil_dependent service s)).
  { split; [done|]. intros (_ & n & s & Hn & _). by rewrite lookup_empty in Hn. }
  intros name s m r Hfresh IH. split.
  - intros Hpanic. destruct r as [acc|]; last first.
    { destruct IH as [IH _]. destruct (IH eq_refl) as (Hne & n & s' & Hn & Hbad).
      split; [done|]. exists n, s'. split; [|done].
      rewrite lookup_insert_ne; [done|]. intros <-. congruence. }
    simpl in Hpanic.
    destruct (DependsOn s !! Name service) as [dep|] eqn:Hdep; [|done].
    destruct (addVariables _ variables s) as [s1|] eqn:Hadd; [done|].
    apply addVariables_panics in Hadd as [Hne Henv].
    split; [done|]. exists name, s. split; [apply lookup_insert_eq|].
    split; [by eexists|done].
  - intros (Hne & n & s' & Hn & Hdep & Henv).
    destruct r as [acc|]; [|done]. simpl.
    destruct (decide (name = n)) as [->|Hname].
    + rewrite lookup_insert_eq in Hn. injection Hn as ->.
      destruct Hdep as [dep ->].
      by rewrite (proj2 (addVariables_panics _ variables s') (conj Hne Henv)).
    + rewrite lookup_insert_ne in Hn by done.
      destruct IH as [_ IH]. discriminate IH.
      split; [done|]. by exists n, s'.
Qed.

Context (w : World) (project : Project) (service : ServiceConfig)
        (command : string).

(** X9. When executePlugin returns an empty variable set, runPlugin
    returns without error and the project is exactly as it was, also when
    a dependent has a nil environment map. *)
Theorem empty_variable_set_changes_nothing (cmd : Cmd) :
  launched Quote w project service command cmd →
  (executePlugin w cmd command service).1 = (Some ∅, None) →
  (runPlugin ToUpper Quote w project service command).1 =
  Returns None project.
Proof.
  intros Hl He.
  rewrite (runPlugin_result ToUpper Quote w project service command cmd Hl).
  rewrite He. simpl. rewrite propagate_fixed; [by destruct project|].
  intros n s _ _ key val Hkey. by rewrite lookup_empty in Hkey.
Qed.

(** X10. When executePlugin returns the variable set [V], runPlugin
    panics exactly when [V] is not empty and some service that depends on
    the invoking service has a nil environment map; otherwise it returns
    without error. *)
Theorem runPlugin_panics_iff (cmd : Cmd) (V : Mapping) :
  launched Quote w project service command cmd →
  (executePlugin w cmd command service).1 = (Some V, None) →
  ((runPlugin ToUpper Quote w project service command).1 = Panics ↔
   V ≠ ∅ ∧ ∃ n s, Services project !! n = Some s ∧ nil_dependent service s) ∧
  ((runPlugin ToUpper Quote w project service command).1 ≠ Panics →
   ∃ project',
     (runPlugin ToUpper Quote w project service command).1 =
     Returns None project').
Proof.
  intros Hl He.
  rewrite (runPlugin_result ToUpper Quote w project service command cmd Hl).
  rewrite He. simpl.
  destruct (propagate ToUpper service V (Services project) (Services project))
    as [services'|] eqn:Hprop.
  - split; [|by eexists]. split; [done|].
    intros Hbad.
    apply (proj2 (propagate_panics service V (Services project)
                    (Services project))) in Hbad. congruence.
  - split; [|done]. split; [|done]. intros _. by apply propagate_panics in Hprop.
Qed.

(** X11. Running the invocation again on the project it produced, with
    the child behaving the same, leaves that project as it is: the
    propagation writes the same entries again. *)
Theorem runPlugin_again_changes_nothing (project' : Project) :
  (runPlugin ToUpper Quote w project service command).1 =
    Returns None project' →
  (runPlugin ToUpper Quote w project' service command).1 =
    Returns None project'.
Proof.
  intros Hret.
  destruct (launched_or_not Quote w project service command)
    as [[cmd Hl]|Hnot]; last first.
  { destruct (runPlugin_not_launched ToUpper Quote w project service command
                Hnot) as [_ [Hp|[err Hr]]]; congruence. }
  rewrite (runPlugin_result ToUpper Quote w project service command cmd Hl)
    in Hret.
  destruct ((executePlugin w cmd command service).1.2) as [err|] eqn:Herr;
    [done|].
  destruct (propagate _ _ _ _ _) as [services'|] eqn:Hprop; [|done].
  injection Hret as <-.
  assert (launched Quote w
            {| ProjectName := ProjectName project; Services := services' |}
            service command cmd) as Hl'.
  { destruct Hl as (provider & plugin & ? & ? & ? & ->).
    by exists provider, plugin. }
  rewrite (runPlugin_result ToUpper Quote w _ service command cmd Hl').
  rewrite Herr. simpl. rewrite propagate_fixed; [done|].
  intros n s' Hn Hdep key val Hkey.
  pose proof (propagate_spec ToUpper _ _ _ _ _ n Hprop) as Hspec.
  destruct (Services project !! n) as [s|] eqn:Hs.
  - case_decide as Hdep0.
    + destruct Hspec as (s1 & Hs1 & _ & _ & _ & Hset & _).
      rewrite Hn in Hs1. injection Hs1 as <-. by apply Hset.
    + rewrite Hn in Hspec. injection Hspec as ->. done.
  - simpl in Hn. congruence.
Qed.

End Rerun.

Lemma shop_bare_launched (out : list Decoded) (wait : option error) :
  launched plainQuote (child_world out wait) shop_bare db "up" (shop_cmd "up").
Proof. by eexists _, _. Defined.

Lemma empty_variable_set_changes_nothing_witness :
  (runPlugin asciiToUpper plainQuote (child_world [msg InfoType "x"] None)
     shop_bare db "up").1 = Returns None shop_bare.
Proof.
  apply (empty_variable_set_changes_nothing asciiToUpper plainQuote
           (child_world [msg InfoType "x"] None) shop_bare db "up"
           (shop_cmd "up")).
  - apply shop_bare_launched.
  - reflexivity.
Defined.

Lemma runPlugin_panics_iff_witness :
  let w := child_world [msg SetEnvType "K=a"] None in
  ((runPlugin asciiToUpper plainQuote w shop_bare db "up").1 = Panics ↔
   ({[ "K" := "a" ]} : Mapping) ≠ ∅ ∧
   ∃ n s, Services shop_bare !! n = Some s ∧ nil_dependent db s) ∧
  ((runPlugin asciiToUpper plainQuote w shop_bare db "up").1 ≠ Panics →
   ∃ project',
     (runPlugin asciiToUpper plainQuote w shop_bare db "up").1 =
     Returns None project').
Proof.
  intros w.
  apply (runPlugin_panics_iff asciiToUpper plainQuote w shop_bare db "up"
           (shop_cmd "up") {[ "K" := "a" ]}).
  - apply shop_bare_launched.
  - reflexivity.
Defined.

Lemma runPlugin_again_changes_nothing_witness :
  ∃ project',
    (run_shop [msg SetEnvType "HOST=127.0.0.1"] None "up").1 =
      Returns None project' ∧
    (runPlugin asciiToUpper plainQuote
       (child_world [msg SetEnvType "HOST=127.0.0.1"] None)
       project' db "up").1 = Returns None project'.
Proof.
  eexists. split; [reflexivity|].
  apply (runPlugin_again_changes_nothing asciiToUpper plainQuote
           (child_world [msg SetEnvType "HOST=127.0.0.1"] None) shop db "up").
  reflexivity.
Defined.

(** ** The command line of the plugin *)

(** X12. The command built by setupPluginCommand runs the plugin binary
    with the arguments [compose --project-name <project> <command>]
    followed by one flag [--key=value] per provider option and nothing
    else, whatever order the options come in. *)
Theorem plugin_arguments (project : Project)
    (provider : ServiceProviderConfig) (path command : string) :
  let cmd := setupPluginCommand project provider path command in
  Path cmd = path ∧
  take 4 (Args cmd) =
    ["compose"; "--project-name"; ProjectName project; command] ∧
  length (Args cmd) = 4 + size (Options provider) ∧
  ∀ a, a ∈ drop 4 (Args cmd) ↔
       ∃ k v, Options provider !! k = Some v ∧ a = flag k v.
Proof.
  intros cmd. subst cmd. unfold setupPluginCommand.
  cbn [Path Args app take drop length]. split_and!; [done|done| |].
  - by rewrite length_map, length_map_to_list.
  - intros a. rewrite drop_0, list_elem_of_In, in_map_iff. unfold flag. split.
    + intros ([k v] & <- & Hin). exists k, v. split; [|done].
      by apply elem_of_map_to_list, list_elem_of_In.
    + intros (k & v & Hkv & ->). exists (k, v). split; [done|].
      by apply list_elem_of_In, elem_of_map_to_list.
Qed.

Lemma plugin_arguments_witness :
  "--gpu=on" ∈ drop 4 (Args (setupPluginCommand shop tuned "/bin/model" "up")).
Proof.
  destruct (plugin_arguments shop tuned "/bin/model" "up")
    as (_ & _ & _ & Hflags).
  apply Hflags. exists "gpu", "on". split; [|reflexivity].
  vm_compute. reflexivity.
Defined.

(** ** Events and the start of the child *)

(** X13. executePlugin emits events only for a child it started for the
    command [up] or [down], and then the first event is the starting event
    of the command ([CreatingEvent] for [up], [RemovingEvent] for [down]);
    when the pipe or the start fails, or the command is another one, no
    event is emitted at all. *)
Theorem events_begin_with_starting_event (w : World) (cmd : Cmd)
    (command : string) (service : ServiceConfig) :
  let t := (executePlugin w cmd command service).2 in
  (started w cmd command →
   ∃ rest, events t = startingEvent command (Name service) :: rest) ∧
  (¬ started w cmd command → events t = []) ∧
  (events t ≠ [] → started w cmd command).
Proof.
  intros t. subst t.
  destruct (executePlugin_cases w cmd command service)
    as [(Hn & _ & _ & Hev & _)|[(Hs & _ & e & Ht & _)
       |[(Hs & pre & text & post & _ & _ & Hr)
        |(Hs & pre & d & post & err & _ & _ & _ & Hr)]]].
  - by split_and!.
  - rewrite Ht. split_and!; [|done..]. intros _. by eexists.
  - rewrite Hr. split_and!; [|done..]. intros _. by eexists.
  - rewrite Hr. split_and!; [|done..]. intros _. by eexists.
Qed.

Lemma events_begin_with_starting_event_witness :
  ∃ rest,
    events (executePlugin (child_world [msg ErrorType "boom"] None)
              (shop_cmd "up") "up" db).2 =
    startingEvent "up" "db" :: rest.
Proof.
  destruct (events_begin_with_starting_event
              (child_world [msg ErrorType "boom"] None) (shop_cmd "up") "up"
              db) as (Hstarted & _ & _).
  apply Hstarted. apply shop_started.
Defined.
